(** * WebCrawler/main.py: a shallow embedding and its verified properties

    The crawler is one linear pipeline: load the URL list, normalise and
    filter it, fetch every URL with retry and backoff, save each accepted
    page under its sequence number, and flush the index at the end.

    Modelling decisions.
    - A Python [str] is the [string] of its UTF-8 encoding.  [strip]
      removes the characters of Python's white-space table, whatever number
      of bytes they take; [lower] maps the letters A to Z and leaves every
      other byte alone.
    - Python [int] counters that only count upwards from 0 are [nat];
      [status_code] is [Z]; the sleep durations are exact rationals [Q].
    - The network is an oracle [http_get] over an abstract state [Net]:
      one call of [session.get] either raises or delivers a response.
    - The file system of the orchestrator has a set of directories and a
      map of regular files, both keyed by [Path.parts]; [write_text] raises
      when the parent directory is absent.  The persistence writer is also
      given over a file system that records the kind of every node, where
      [mkdir] and [write_text] raise on a node of the wrong kind
      ([Checked]); the two writers agree wherever no regular file stands
      in the place of a directory and no directory in the place of a page
      file ([save_page_view]), and the statements about whole runs are
      about such file systems.  Permissions and disk space are outside the
      model.
    - Every effect appends an [event] to a log, so that statements about
      what the program did and in which order are statements about a list. *)

From stdpp Require Import gmap strings list pretty.
From Stdlib Require Import Ascii.
From Stdlib Require QArith.

Abbreviation Q := QArith_base.Q.
Abbreviation Qmake := QArith_base.Qmake.
Abbreviation Qmult := QArith_base.Qmult.
Abbreviation inject_Z := QArith_base.inject_Z.

Set Warnings "-register-all,-clear-no-such-hyp".

(** ** Python strings *)

Module PyStr.

Definition NL : string := String "010"%char "".
Definition TAB : string := String "009"%char "".

(** The code points for which [str.isspace] holds; they are the characters
    that [str.strip] removes. *)
Definition WHITESPACE : list N :=
  [ 0x09; 0x0A; 0x0B; 0x0C; 0x0D; 0x1C; 0x1D; 0x1E; 0x1F; 0x20; 0x85; 0xA0;
    0x1680; 0x2000; 0x2001; 0x2002; 0x2003; 0x2004; 0x2005; 0x2006; 0x2007;
    0x2008; 0x2009; 0x200A; 0x2028; 0x2029; 0x202F; 0x205F; 0x3000 ]%N.

(** The UTF-8 encoding of a code point. *)
Definition utf8 (cp : N) : string :=
  let byte (n : N) := ascii_of_N n in
  let cont (n : N) := byte (0x80 + n `mod` 0x40)%N in
  if (cp <? 0x80)%N then String (byte cp) ""
  else if (cp <? 0x800)%N then
    String (byte (0xC0 + cp `div` 0x40)%N) (String (cont cp) "")
  else if (cp <? 0x10000)%N then
    String (byte (0xE0 + cp `div` 0x1000)%N)
      (String (cont (cp `div` 0x40)%N) (String (cont cp) ""))
  else
    String (byte (0xF0 + cp `div` 0x40000)%N)
      (String (cont (cp `div` 0x1000)%N)
         (String (cont (cp `div` 0x40)%N) (String (cont cp) ""))).

Definition whitespace : list string := utf8 <$> WHITESPACE.

(** [x] is one white-space character. *)
Definition is_space (x : string) : bool := bool_decide (x ∈ whitespace).

Definition is_upper (c : ascii) : bool :=
  let n := nat_of_ascii c in (65 <=? n) && (n <=? 90).

Definition lower_char (c : ascii) : ascii :=
  if is_upper c then ascii_of_nat (nat_of_ascii c + 32) else c.

(** [s.lower()] *)
Fixpoint lower (s : string) : string :=
  match s with
  | "" => ""
  | String c s' => String (lower_char c) (lower s')
  end.

(** [s.split(sep)] for a one-character separator. *)
Fixpoint split (sep : ascii) (s : string) : list string :=
  match s with
  | "" => [""]
  | String c s' =>
      if decide (c = sep) then "" :: split sep s'
      else match split sep s' with
           | [] => [String c ""]
           | h :: t => String c h :: t
           end
  end.

(** [l[0]] on the result of a split, which is never empty. *)
Definition item0 (l : list string) : string := default "" (head l).

(** [s.startswith(p)] *)
Fixpoint startswith (s p : string) : bool :=
  match p, s with
  | "", _ => true
  | String _ _, "" => false
  | String a p', String b s' => if decide (a = b) then startswith s' p' else false
  end.

(** [s.endswith(e)] *)
Fixpoint endswith (s e : string) : bool :=
  if decide (s = e) then true
  else match s with
       | "" => false
       | String _ s' => endswith s' e
       end.

(** [needle in hay] *)
Fixpoint contains (needle hay : string) : bool :=
  if startswith hay needle then true
  else match hay with
       | "" => false
       | String _ hay' => contains needle hay'
       end.

(** [s.lstrip()]: a white-space character at the head takes one, two or
    three bytes. *)
Fixpoint lstrip (s : string) : string :=
  match s with
  | "" => ""
  | String a s1 =>
      if is_space (String a "") then lstrip s1
      else match s1 with
           | "" => s
           | String b s2 =>
               if is_space (String a (String b "")) then lstrip s2
               else match s2 with
                    | "" => s
                    | String c s3 =>
                        if is_space (String a (String b (String c "")))
                        then lstrip s3 else s
                    end
           end
  end.

(** All of [s] is white space. *)
Definition all_space (s : string) : bool := bool_decide (lstrip s = "").

(** [s.rstrip()]: cut where the rest of the string is all white space. *)
Fixpoint rstrip (s : string) : string :=
  match s with
  | "" => ""
  | String c s' => if all_space s then "" else String c (rstrip s')
  end.

(** [s.strip()] *)
Definition strip (s : string) : string := rstrip (lstrip s).

(** The words of the specification for white space: a sequence of
    white-space characters. *)
Inductive spaces : string → Prop :=
  | spaces_nil : spaces ""
  | spaces_cons x t : x ∈ whitespace → spaces t → spaces (x +:+ t).

(** The rest of [s] after one white-space character at its head. *)
Definition after_space (s : string) : option string :=
  match s with
  | "" => None
  | String a s1 =>
      if is_space (String a "") then Some s1
      else match s1 with
           | "" => None
           | String b s2 =>
               if is_space (String a (String b "")) then Some s2
               else match s2 with
                    | "" => None
                    | String c s3 =>
                        if is_space (String a (String b (String c "")))
                        then Some s3 else None
                    end
           end
  end.

(** No white-space character is the beginning of another one. *)
Definition stands_alone (x : string) : bool :=
  match x with
  | String a "" => true
  | String a (String b "") => negb (is_space (String a ""))
  | String a (String b (String c "")) =>
      negb (is_space (String a "")) && negb (is_space (String a (String b "")))
  | _ => false
  end.

(** [sep.join(l)] *)
Fixpoint join (sep : string) (l : list string) : string :=
  match l with
  | [] => ""
  | [x] => x
  | x :: rest => x +:+ sep +:+ join sep rest
  end.

Fixpoint zeros (k : nat) : string :=
  match k with 0 => "" | S k' => String "0"%char (zeros k') end.

(** [f"{n}"] and [f"{n:03d}"] for a non-negative integer. *)
Definition fmt_d (n : nat) : string := pretty n.
Definition fmt_03d (n : nat) : string :=
  let s := pretty n in zeros (3 - String.length s) +:+ s.

End PyStr.
Import PyStr.

(** ** Configuration constants *)

Definition URLS_FILE : string := "urls.json".
Definition OUTPUT_DIR : string := "crawled_pages".
Definition INDEX_PATH : string := "index.txt".
Definition REQUEST_DELAY_SEC : Q := Qmake 2 10.

Definition DISALLOWED_EXTENSIONS : gset string :=
  list_to_set
    [ ".js"; ".css"; ".png"; ".jpg"; ".jpeg"; ".gif"; ".svg"; ".webp";
      ".ico"; ".pdf"; ".zip"; ".rar"; ".7z"; ".mp3"; ".mp4"; ".avi"; ".mov";
      ".woff"; ".woff2"; ".ttf"; ".eot" ].

(** ** Values delivered by [json.loads] *)

Inductive json :=
  | JNull
  | JBool (b : bool)
  | JInt (n : Z)
  | JFloat (q : Q)
  | JStr (s : string)
  | JArr (l : list json)
  | JObj (m : gmap string json).

(** ** Resource filter and URL normalisation *)

(** The [for ext in DISALLOWED_EXTENSIONS] loop with its early return. *)
Fixpoint any_endswith (u : string) (exts : list string) : bool :=
  match exts with
  | [] => false
  | ext :: rest => if endswith u ext then true else any_endswith u rest
  end.

Definition is_bad_resource_url (url : string) : bool :=
  let u := item0 (split "#" (item0 (split "?" (lower url)))) in
  any_endswith u (elements DISALLOWED_EXTENSIONS).

(** The loop of [normalize_urls], with [seen] and [out] as it mutates them. *)
Fixpoint normalize_loop (urls : list json) (seen : gset string)
    (out : list string) : list string :=
  match urls with
  | [] => out
  | JStr s :: rest =>
      let u := strip s in
      if decide (u = "") then normalize_loop rest seen out
      else if is_bad_resource_url u then normalize_loop rest seen out
      else if decide (u ∈ seen) then normalize_loop rest seen out
      else normalize_loop rest ({[u]} ∪ seen) (out ++ [u])
  | _ :: rest => normalize_loop rest seen out
  end.

Definition normalize_urls (urls : list json) : list string :=
  normalize_loop urls ∅ [].

(** ** HTTP responses *)

Record Session := { session_headers : list (string * string) }.

Record Response := {
  status_code : Z;
  headers : list (string * string);
  text : string
}.

(** One call of [session.get]: it raises, or it delivers a response. *)
Inductive outcome :=
  | Raised
  | Responded (resp : Response).

(** [resp.headers.get(name)]; the header names compare without case. *)
Fixpoint headers_get (h : list (string * string)) (name : string)
    : option string :=
  match h with
  | [] => None
  | (k, v) :: rest =>
      if decide (lower k = lower name) then Some v else headers_get rest name
  end.

Definition is_html_response (resp : Response) : bool :=
  let ctype := lower (default "" (headers_get (headers resp) "Content-Type")) in
  contains "text/html" ctype || contains "application/xhtml+xml" ctype.

Definition create_http_session : Session :=
  {| session_headers :=
       [ ("User-Agent",
          "Mozilla/5.0 (Windows NT 10.0; Win64; x64) " +:+
          "AppleWebKit/537.36 (KHTML, like Gecko) " +:+
          "Chrome/120.0 Safari/537.36");
         ("Accept",
          "text/html,application/xhtml+xml,application/xml;q=0.9,*/*;q=0.8");
         ("Accept-Language", "ru-RU,ru;q=0.9,en;q=0.8");
         ("Connection", "keep-alive") ] |}.

Definition TIMEOUT_SEC : Z := 15.

(** ** Files *)

(** A path is the list of its components, [Path.parts], relative to the
    working directory, which is the empty list. *)
Abbreviation Path := (list string) (only parsing).

(** [Path(name)] for a name without separators. *)
Definition mkPath (name : string) : Path := [name].

(** [dir / name] *)
Definition path_join (dir : Path) (name : string) : Path := dir ++ [name].

Definition parent (p : Path) : Path := removelast p.

Record FS := {
  dirs : gset (list string);
  files : gmap (list string) string
}.

Definition is_dir (f : FS) (p : Path) : bool :=
  bool_decide (p = [] ∨ p ∈ dirs f).

(** The path itself and every ancestor below the working directory. *)
Definition lineage (p : Path) : list Path :=
  (λ k, take k p) <$> seq 1 (length p).

(** ** The world, its events and the monad of the program *)

Inductive event :=
  | EvGet (url : string) (o : outcome)
  | EvSleep (seconds : Q)
  | EvPrint (line : string)
  | EvMkdir (p : Path)
  | EvWrite (p : Path) (content : string).

Inductive exn :=
  | SystemExit (msg : string)
  | ValueError (msg : string)
  | AttributeError
  | JSONDecodeError
  | FileNotFoundError (p : Path).

Inductive result (A : Type) :=
  | Ok (a : A)
  | Raise (e : exn).
Arguments Ok {A} a.
Arguments Raise {A} e.

(** What the shell sees when the interpreter ends: an uncaught exception,
    [SystemExit] with a message included, gives status 1. *)
Definition exit_status {A} (r : result A) : Z :=
  match r with
  | Ok _ => 0
  | Raise _ => 1
  end.

Definition pages_message (saved : nat) : string :=
  "Не удалось сохранить 100 страниц: сохранено " +:+ fmt_d saved +:+ ". " +:+
  "Добавь больше URL в urls.json (лучше 150–200) или проверь доступность сайтов.".

Definition empty_message : string := "Список URL пуст. Заполни urls.json.".

Definition summary_line (saved : nat) : string :=
  "Готово: сохранено " +:+ fmt_d saved +:+ " страниц, index.txt сформирован.".

(** [f"{n}\t{url}"] *)
Definition index_line (record : nat * string) : string :=
  fmt_d record.1 +:+ TAB +:+ record.2.

Definition index_text (index_lines : list (nat * string)) : string :=
  join NL (index_line <$> index_lines) +:+ NL.

Module Crawler.

Section Program.

Context {Net : Type}.
(** [session.get(url, timeout=..., allow_redirects=...)] *)
Context (http_get : Net → Session → string → Z → bool → Net * outcome).
(** [json.loads]; [None] stands for a decoding error. *)
Context (json_loads : string → option json).
Context (MAX_PAGES RETRIES : nat).

Record World := {
  net : Net;
  fs : FS;
  log : list event
}.

Definition M (A : Type) : Type := World → result A * World.

#[local] Instance M_ret : MRet M := λ A a w, (Ok a, w).
#[local] Instance M_bind : MBind M := λ A B k m w,
  match m w with
  | (Ok a, w') => k a w'
  | (Raise e, w') => (Raise e, w')
  end.

Definition raise {A} (e : exn) : M A := λ w, (Raise e, w).

Definition emit (e : event) (w : World) : World :=
  {| net := net w; fs := fs w; log := log w ++ [e] |}.

(** [time.sleep] *)
Definition sleep (seconds : Q) : M unit :=
  λ w, (Ok (), emit (EvSleep seconds) w).

Definition print (line : string) : M unit :=
  λ w, (Ok (), emit (EvPrint line) w).

Definition session_get (session : Session) (url : string) : M outcome :=
  λ w,
    let '(n, o) := http_get (net w) session url TIMEOUT_SEC true in
    (Ok o, {| net := n; fs := fs w; log := log w ++ [EvGet url o] |}).

(** [path.mkdir(parents=True, exist_ok=True)] *)
Definition mkdir (p : Path) : M unit :=
  λ w,
    (Ok (),
     {| net := net w;
        fs := {| dirs := list_to_set (lineage p) ∪ dirs (fs w);
                 files := files (fs w) |};
        log := log w ++ [EvMkdir p] |}).

(** [path.write_text(content)] *)
Definition write_text (p : Path) (content : string) : M unit :=
  λ w,
    if is_dir (fs w) (parent p) then
      (Ok (),
       {| net := net w;
          fs := {| dirs := dirs (fs w);
                   files := <[p := content]> (files (fs w)) |};
          log := log w ++ [EvWrite p content] |})
    else (Raise (FileNotFoundError p), w).

(** [path.read_text()] *)
Definition read_text (p : Path) : M string :=
  λ w,
    match files (fs w) !! p with
    | Some content => (Ok content, w)
    | None => (Raise (FileNotFoundError p), w)
    end.

(** *** URL source *)

Definition load_urls (file_path : string) : M (list string) :=
  let path := mkPath file_path in
  content ← read_text path;
  match json_loads content with
  | None => raise JSONDecodeError
  | Some (JObj data) =>
      let raw_urls := default (JArr []) (data !! "urls") in
      match raw_urls with
      | JArr l => mret (normalize_urls l)
      | _ => raise (ValueError "urls.json: поле 'urls' должно быть массивом строк")
      end
  | Some _ => raise AttributeError
  end.

(** *** Fetcher *)

(** The body of [for attempt in range(1, RETRIES + 1)].  The [except] clause
    catches whatever the attempt raises; [last_err] is assigned and never
    read, so it is left out. *)
Fixpoint fetch_loop (session : Session) (url : string) (attempts : list nat)
    : M (option string) :=
  match attempts with
  | [] => mret None
  | attempt :: rest =>
      o ← session_get session url;
      match o with
      | Responded resp =>
          if decide (status_code resp ≠ 200%Z) then mret None
          else if negb (is_html_response resp) then mret None
          else mret (Some (text resp))
      | Raised =>
          sleep (Qmult (Qmake 1 2) (inject_Z (Z.of_nat attempt)));;
          fetch_loop session url rest
      end
  end.

Definition fetch_html (session : Session) (url : string) : M (option string) :=
  fetch_loop session url (seq 1 RETRIES).

(** *** Persistence writer *)

Definition save_page (output_dir : Path) (number : nat) (html : string)
    : M Path :=
  mkdir output_dir;;
  let file_path := path_join output_dir (fmt_d number +:+ ".txt") in
  write_text file_path html;;
  mret file_path.

Definition write_index (index_path : Path) (index_lines : list (nat * string))
    : M unit :=
  write_text index_path (index_text index_lines).

(** *** Orchestrator *)

(** The body of [for url in urls], with [saved] and [index_lines] as the
    loop mutates them; the first branch is the [break]. *)
Fixpoint main_loop (session : Session) (out_dir : Path) (urls : list string)
    (saved : nat) (index_lines : list (nat * string))
    : M (nat * list (nat * string)) :=
  match urls with
  | [] => mret (saved, index_lines)
  | url :: rest =>
      if decide (MAX_PAGES ≤ saved) then mret (saved, index_lines)
      else
        html ← fetch_html session url;
        match html with
        | None =>
            print ("[SKIP] " +:+ url);;
            sleep REQUEST_DELAY_SEC;;
            main_loop session out_dir rest saved index_lines
        | Some html =>
            let saved := S saved in
            save_page out_dir saved html;;
            let index_lines := index_lines ++ [(saved, url)] in
            print ("[OK]   " +:+ fmt_03d saved +:+ ": " +:+ url);;
            sleep REQUEST_DELAY_SEC;;
            main_loop session out_dir rest saved index_lines
        end
  end.

Definition main : M unit :=
  urls ← load_urls URLS_FILE;
  if decide (urls = []) then raise (SystemExit empty_message)
  else
    let session := create_http_session in
    let out_dir := mkPath OUTPUT_DIR in
    let index_path := mkPath INDEX_PATH in
    '(saved, index_lines) ← main_loop session out_dir urls 0 [];
    write_index index_path index_lines;;
    if decide (saved < MAX_PAGES)
    then raise (SystemExit (pages_message saved))
    else print (summary_line saved).

(** *** Words of the specification about the input *)

(** The input parsed as the expected structure: a readable file that
    holds a JSON object. *)
Definition parsed_input (file_path : string) (w : World)
    : option (gmap string json) :=
  match files (fs w) !! mkPath file_path with
  | Some content =>
      match json_loads content with
      | Some (JObj data) => Some data
      | _ => None
      end
  | None => None
  end.

(** *** Words of the specification about the network *)

(** The next [k] calls of [session.get] for [url] all raise. *)
Fixpoint every_attempt_raises (session : Session) (url : string) (k : nat)
    (n : Net) : bool :=
  match k with
  | 0 => true
  | S k' =>
      match http_get n session url TIMEOUT_SEC true with
      | (n', Raised) => every_attempt_raises session url k' n'
      | (_, Responded _) => false
      end
  end.

End Program.

Arguments World : clear implicits.
Arguments M : clear implicits.

End Crawler.
Import Crawler.

(** ** Observations on a run, used to state the properties *)

(** The body a response is accepted with, if it is accepted. *)
Definition accepted (o : outcome) : option string :=
  match o with
  | Raised => None
  | Responded resp =>
      if decide (status_code resp ≠ 200%Z) then None
      else if negb (is_html_response resp) then None
      else Some (text resp)
  end.

(** [0.5 * attempt] *)
Definition backoff (attempt : nat) : Q :=
  Qmult (Qmake 1 2) (inject_Z (Z.of_nat attempt)).

(** The words of the specification for an HTML or XHTML content type. *)
Definition declares_html (resp : Response) : Prop :=
  let ctype := lower (default "" (headers_get (headers resp) "Content-Type")) in
  (∃ pre post, ctype = pre +:+ "text/html" +:+ post) ∨
  (∃ pre post, ctype = pre +:+ "application/xhtml+xml" +:+ post).

(** The events of one attempt that raises. *)
Definition failed_attempt (url : string) (attempt : nat) : list event :=
  [EvGet url Raised; EvSleep (backoff attempt)].

(** The name of the page file of a sequence number. *)
Definition page_path (n : nat) : Path :=
  path_join (mkPath OUTPUT_DIR) (fmt_d n +:+ ".txt").

(** What matters of an event for the pages: an accepted fetch of a URL, or
    a write below the output directory. *)
Inductive page_obs :=
  | Fetched (url body : string)
  | Written (p : Path) (body : string).

Definition page_event (e : event) : option page_obs :=
  match e with
  | EvGet url o => Fetched url <$> accepted o
  | EvWrite p body =>
      if decide (parent p = mkPath OUTPUT_DIR) then Some (Written p body) else None
  | _ => None
  end.

Definition is_get (e : event) : bool :=
  match e with EvGet _ _ => true | _ => false end.

Definition is_written (o : page_obs) : bool :=
  match o with Written _ _ => true | Fetched _ _ => false end.

(** The number of page files written according to a log. *)
Definition page_files_written (evs : list event) : nat :=
  length (filter (λ o, is_written o = true) (omap page_event evs)).

(** The saved pages are kept as pairs of a URL and the body fetched from
    it.  Numbered from [k + 1] on, they determine the index records, the
    fetches and writes in the log, and the page files. *)
Fixpoint number_from (k : nat) (pages : list (string * string))
    : list (nat * string) :=
  match pages with
  | [] => []
  | (url, _) :: rest => (S k, url) :: number_from (S k) rest
  end.

Fixpoint page_trace (k : nat) (pages : list (string * string))
    : list page_obs :=
  match pages with
  | [] => []
  | (url, body) :: rest =>
      Fetched url body :: Written (page_path (S k)) body
        :: page_trace (S k) rest
  end.

Fixpoint store_pages (k : nat) (pages : list (string * string))
    (m : gmap (list string) string) : gmap (list string) string :=
  match pages with
  | [] => m
  | (_, body) :: rest => store_pages (S k) rest (<[page_path (S k) := body]> m)
  end.

(** Every line followed by one newline. *)
Fixpoint unlines (l : list string) : string :=
  match l with
  | [] => ""
  | x :: rest => x +:+ NL +:+ unlines rest
  end.

(** The end of [main] once [saved] pages are stored. *)
Definition verdict (MAX_PAGES saved : nat) : result unit :=
  if decide (saved < MAX_PAGES) then Raise (SystemExit (pages_message saved))
  else Ok ().

(** The part of [s] before the first [sep]. *)
Fixpoint upto (sep : ascii) (s : string) : string :=
  match s with
  | "" => ""
  | String c s' => if decide (c = sep) then "" else String c (upto sep s')
  end.

(** The words of the specification for the resource filter: the URL up to
    its first [?] or [#]. *)
Fixpoint before_query_fragment (s : string) : string :=
  match s with
  | "" => ""
  | String c s' =>
      if decide (c = "?"%char ∨ c = "#"%char) then ""
      else String c (before_query_fragment s')
  end.

Definition has_rejected_extension (url : string) : Prop :=
  ∃ ext p, ext ∈ DISALLOWED_EXTENSIONS ∧
           lower (before_query_fragment url) = p +:+ ext.

(** The words of the specification for the URL source. *)
Definition candidates (urls : list json) : list string :=
  filter (λ u, is_bad_resource_url u = false)
    (filter (λ u, u ≠ "")
       (omap (λ j, match j with JStr s => Some (strip s) | _ => None end) urls)).

Fixpoint first_occurrences (l : list string) : list string :=
  match l with
  | [] => []
  | x :: l' => x :: filter (λ y, y ≠ x) (first_occurrences l')
  end.

(** A network that plays a script: each call consumes the next outcome, and
    raises once the script is over. *)
Definition scripted_get (script : list outcome) (_ : Session) (_ : string)
    (_ : Z) (_ : bool) : list outcome * outcome :=
  match script with
  | [] => ([], Raised)
  | o :: rest => (rest, o)
  end.

Definition html_page (body : string) : outcome :=
  Responded {| status_code := 200;
               headers := [("content-type", "Text/HTML; charset=utf-8")];
               text := body |}.

Definition demo_json (s : string) : option json :=
  if decide (s = "ok") then
    Some (JObj {[ "urls" := JArr [JStr "https://a.test/page";
                                  JStr "https://a.test/image.png";
                                  JStr "https://a.test/page"] ]})
  else None.

Definition demo_world (script : list outcome) : World (list outcome) :=
  {| net := script;
     fs := {| dirs := ∅; files := {[ mkPath URLS_FILE := "ok" ]} |};
     log := [] |}.

(** ** Further observations *)

(** The character [c] does not occur in [s]. *)
Fixpoint no_char (c : ascii) (s : string) : bool :=
  match s with
  | "" => true
  | String a s' => negb (bool_decide (a = c)) && no_char c s'
  end.

(** An entry that [normalize_urls] passes over: not a string, empty once
    trimmed, or rejected by the resource filter. *)
Definition dropped (j : json) : bool :=
  match j with
  | JStr s => bool_decide (strip s = "") || is_bad_resource_url (strip s)
  | _ => true
  end.


Definition is_print (e : event) : bool :=
  match e with EvPrint _ => true | _ => false end.

(** The number of progress lines, one per URL the loop has dealt with. *)
Definition progress_lines (evs : list event) : nat :=
  length (filter (λ e, is_print e = true) evs).

(** The URL of a request. *)
Definition requested (e : event) : option string :=
  match e with EvGet url _ => Some url | _ => None end.

(** ** The persistence writer over a file system with kinds of nodes

    Every node is a directory or a regular file.  The two calls of pathlib
    raise when they meet a node of the wrong kind. *)

Module Checked.

Inductive node :=
  | Dir
  | File (content : string).

Inductive os_error :=
  | FileExistsError (p : Path)
  | NotADirectoryError (p : Path)
  | IsADirectoryError (p : Path)
  | FileNotFoundError (p : Path).

(** The working directory, the empty path, is always there and is a
    directory. *)
Definition is_file (t : gmap (list string) node) (q : Path) : bool :=
  match q, t !! q with
  | [], _ => false
  | _, Some (File _) => true
  | _, _ => false
  end.

Definition is_dir (t : gmap (list string) node) (q : Path) : bool :=
  match q, t !! q with
  | [], _ => true
  | _, Some Dir => true
  | _, _ => false
  end.

(** All of [l] made directories. *)
Definition make_dirs (l : list Path) (t : gmap (list string) node)
    : gmap (list string) node :=
  foldr (λ q acc, <[q := Dir]> acc) t l.

(** [path.mkdir(parents=True, exist_ok=True)]: a regular file at the path
    raises [FileExistsError], a regular file above it
    [NotADirectoryError]; otherwise every missing directory on the way is
    made. *)
Definition mkdir (p : Path) (t : gmap (list string) node)
    : (os_error + unit) * gmap (list string) node :=
  match list_find (λ q, is_file t q = true) (lineage p) with
  | Some (_, q) =>
      (inl (if decide (q = p) then FileExistsError p
            else NotADirectoryError p), t)
  | None => (inr (), make_dirs (lineage p) t)
  end.

(** No regular file stands at the path or above it. *)
Definition no_file_on (t : gmap (list string) node) (p : Path) : bool :=
  forallb (λ q, negb (is_file t q)) (lineage p).

(** [path.write_text(content)]: opening the file for writing raises
    [NotADirectoryError] when a regular file stands where a directory of
    the path should be, [FileNotFoundError] when the parent directory is
    missing and [IsADirectoryError] when the path is a directory;
    otherwise the file is created or truncated and holds the content. *)
Definition write_text (p : Path) (content : string)
    (t : gmap (list string) node)
    : (os_error + unit) * gmap (list string) node :=
  if negb (no_file_on t (parent p)) then (inl (NotADirectoryError p), t)
  else if negb (is_dir t (parent p)) then (inl (FileNotFoundError p), t)
  else if is_dir t p then (inl (IsADirectoryError p), t)
  else (inr (), <[p := File content]> t).

Definition save_page (output_dir : Path) (number : nat) (html : string)
    (t : gmap (list string) node)
    : (os_error + Path) * gmap (list string) node :=
  match mkdir output_dir t with
  | (inl e, t1) => (inl e, t1)
  | (inr _, t1) =>
      let file_path := path_join output_dir (fmt_d number +:+ ".txt") in
      match write_text file_path html t1 with
      | (inl e, t2) => (inl e, t2)
      | (inr _, t2) => (inr file_path, t2)
      end
  end.

(** What the orchestrator's file system keeps of such a tree: which
    paths are directories, and the contents of the regular files. *)
Definition view (t : gmap (list string) node) : FS :=
  {| dirs := dom (omap (λ n, match n with Dir => Some () | File _ => None end) t);
     files := omap (λ n, match n with Dir => None | File c => Some c end) t |}.

End Checked.

(** The table of extensions is only ever used through membership. *)
#[global] Opaque DISALLOWED_EXTENSIONS.

(** * Facts about the string operations *)

Lemma sapp_cons c s t : String c s +:+ t = String c (s +:+ t).
Proof. reflexivity. Qed.

Lemma sapp_nil_l t : "" +:+ t = t.
Proof. reflexivity. Qed.

Lemma sapp_nil_r s : s +:+ "" = s.
Proof. induction s as [|c s IH]; [done|]. by rewrite sapp_cons, IH. Qed.

Lemma sapp_assoc s t u : (s +:+ t) +:+ u = s +:+ (t +:+ u).
Proof. induction s as [|c s IH]; [done|]. by rewrite !sapp_cons, IH. Qed.

Lemma startswith_spec s p : startswith s p = true ↔ ∃ post, s = p +:+ post.
Proof.
  revert s. induction p as [|a p IH]; intros s.
  - destruct s; simpl; split; eauto.
  - destruct s as [|b s]; simpl.
    + split; [done|]. by intros [post ?].
    + case_decide as Hab.
      * subst. rewrite IH. split; intros [post Hp]; exists post.
        -- by rewrite sapp_cons, Hp.
        -- rewrite sapp_cons in Hp. by simplify_eq.
      * split; [done|]. intros [post Hp]. rewrite sapp_cons in Hp.
        by simplify_eq.
Qed.

Lemma endswith_spec s e : endswith s e = true ↔ ∃ p, s = p +:+ e.
Proof.
  induction s as [|c s IH]; simpl.
  - case_decide as He.
    + subst. split; [by exists ""|done].
    + split; [done|]. intros [p Hp]. destruct p; [done|].
      by rewrite sapp_cons in Hp.
  - case_decide as He.
    + split; [|done]. intros _. by exists "".
    + rewrite IH. split.
      * intros [p ->]. by exists (String c p).
      * intros [p Hp]. destruct p as [|c' p]; [done|].
        rewrite sapp_cons in Hp. simplify_eq. by exists p.
Qed.

Lemma contains_unfold needle hay :
  contains needle hay =
    if startswith hay needle then true
    else match hay with
         | "" => false
         | String _ hay' => contains needle hay'
         end.
Proof. by destruct hay. Qed.

Lemma contains_spec needle hay :
  contains needle hay = true ↔ ∃ pre post, hay = pre +:+ needle +:+ post.
Proof.
  induction hay as [|c hay IH]; rewrite contains_unfold.
  - destruct (startswith "" needle) eqn:Hs.
    + apply startswith_spec in Hs as [post Hp]. split; [|done].
      intros _. by exists "", post.
    + split; [done|]. intros (pre & post & Hp).
      destruct pre; [|by rewrite sapp_cons in Hp].
      rewrite sapp_nil_l in Hp.
      assert (startswith "" needle = true) by (apply startswith_spec; eauto).
      congruence.
  - destruct (startswith (String c hay) needle) eqn:Hs.
    + apply startswith_spec in Hs as [post Hp]. split; [|done].
      intros _. by exists "", post.
    + rewrite IH. split.
      * intros (pre & post & ->). by exists (String c pre), post.
      * intros (pre & post & Hp). destruct pre as [|c' pre].
        -- rewrite sapp_nil_l in Hp.
           assert (startswith (String c hay) needle = true)
             by (apply startswith_spec; eauto).
           congruence.
        -- rewrite sapp_cons in Hp. simplify_eq. by exists pre, post.
Qed.

Lemma split_item0 sep s : item0 (split sep s) = upto sep s.
Proof.
  induction s as [|c s IH]; simpl; [done|].
  case_decide; [done|].
  destruct (split sep s); simpl in *; by rewrite <- IH.
Qed.

Lemma upto_twice s : upto "#" (upto "?" s) = before_query_fragment s.
Proof.
  induction s as [|c s IH]; simpl; [done|].
  destruct (decide (c = "?"%char)) as [->|Hq]; simpl; [done|].
  destruct (decide (c = "#"%char)) as [->|Hf]; [done|].
  rewrite decide_False by tauto. by rewrite IH.
Qed.

Lemma lower_char_query_fragment c :
  (lower_char c = "?"%char ∨ lower_char c = "#"%char) ↔
  (c = "?"%char ∨ c = "#"%char).
Proof.
  destruct c as [[] [] [] [] [] [] [] []]; vm_compute;
    split; intros [?|?]; (discriminate || auto).
Qed.

Lemma lower_before_query_fragment s :
  before_query_fragment (lower s) = lower (before_query_fragment s).
Proof.
  induction s as [|c s IH]; simpl; [done|].
  pose proof (lower_char_query_fragment c).
  repeat case_decide; simpl; try done; try tauto.
  by rewrite IH.
Qed.

Lemma any_endswith_spec u exts :
  any_endswith u exts = true ↔ ∃ ext, ext ∈ exts ∧ endswith u ext = true.
Proof.
  induction exts as [|e exts IH]; simpl.
  - split; [done|]. intros (? & []%elem_of_nil & _).
  - destruct (endswith u e) eqn:He.
    + split; [|done]. intros _. exists e. split; [apply elem_of_cons; by left|done].
    + rewrite IH. split.
      * intros (ext & ? & ?). exists ext. split; [apply elem_of_cons; by right|done].
      * intros (ext & [->|?]%elem_of_cons & ?); [congruence|eauto].
Qed.

Lemma sapp_length s t :
  String.length (s +:+ t) = String.length s + String.length t.
Proof. induction s as [|c s IH]; [done|]. rewrite sapp_cons. simpl. lia. Qed.

Lemma sapp_inv_tail s s' t : s +:+ t = s' +:+ t → s = s'.
Proof.
  revert s'. induction s as [|c s IH]; intros [|c' s'] H.
  - done.
  - apply (f_equal String.length) in H.
    rewrite sapp_nil_l, sapp_cons in H. simpl in H. rewrite sapp_length in H. lia.
  - apply (f_equal String.length) in H.
    rewrite sapp_nil_l, sapp_cons in H. simpl in H. rewrite sapp_length in H. lia.
  - rewrite !sapp_cons in H. injection H as -> H. f_equal. by apply IH.
Qed.

Lemma page_path_inj n m : page_path n = page_path m → n = m.
Proof.
  unfold page_path, path_join, mkPath, fmt_d. simpl. intros H.
  injection H as H. apply sapp_inv_tail in H. by apply (inj pretty) in H.
Qed.

Lemma parent_page_path n : parent (page_path n) = mkPath OUTPUT_DIR.
Proof. reflexivity. Qed.

Lemma whitespace_stands_alone x :
  x ∈ whitespace → is_space x = true ∧ stands_alone x = true.
Proof.
  intros Hx. split; [by apply bool_decide_eq_true|].
  assert (forallb stands_alone whitespace = true) as Hall
    by (vm_compute; reflexivity).
  rewrite forallb_forall in Hall. by apply Hall, list_elem_of_In.
Qed.

Lemma lstrip_unfold s :
  lstrip s = match after_space s with Some r => lstrip r | None => s end.
Proof.
  destruct s as [|a s1]; [done|]. simpl.
  destruct (is_space (String a "")); [done|].
  destruct s1 as [|b s2]; [done|]. simpl.
  destruct (is_space (String a (String b ""))); [done|].
  destruct s2 as [|c s3]; [done|]. simpl.
  by destruct (is_space (String a (String b (String c "")))).
Qed.

Lemma after_space_Some s r :
  after_space s = Some r → ∃ x, x ∈ whitespace ∧ s = x +:+ r.
Proof.
  assert (∀ x, is_space x = true → x ∈ whitespace) as Hws
    by (intros x Hx; by apply bool_decide_eq_true in Hx).
  destruct s as [|a s1]; [done|]. simpl.
  destruct (is_space (String a "")) eqn:H1.
  { intros [= <-]. eauto. }
  destruct s1 as [|b s2]; [done|].
  destruct (is_space (String a (String b ""))) eqn:H2.
  { intros [= <-]. eauto. }
  destruct s2 as [|c s3]; [done|].
  destruct (is_space (String a (String b (String c "")))) eqn:H3; [|done].
  intros [= <-]. eauto.
Qed.

Lemma after_space_whitespace x t :
  x ∈ whitespace → after_space (x +:+ t) = Some t.
Proof.
  intros [Hx Halone]%whitespace_stands_alone.
  destruct x as [|a [|b [|c [|d x]]]]; try done; simpl in Halone;
    rewrite ?sapp_cons, ?sapp_nil_l; simpl.
  - by rewrite Hx.
  - apply negb_true_iff in Halone. rewrite Halone. by rewrite Hx.
  - apply andb_true_iff in Halone as [H1%negb_true_iff H2%negb_true_iff].
    rewrite H1, H2. by rewrite Hx.
Qed.

Lemma after_space_None s x :
  after_space s = None → x ∈ whitespace → startswith s x = false.
Proof.
  intros Hs Hx. destruct (startswith s x) eqn:Hst; [|done].
  apply startswith_spec in Hst as [post ->].
  by rewrite after_space_whitespace in Hs.
Qed.

Lemma after_space_shorter s r :
  after_space s = Some r → String.length r < String.length s.
Proof.
  intros (x & [_ Hx]%whitespace_stands_alone & ->)%after_space_Some.
  rewrite sapp_length. destruct x; [done|]. simpl. lia.
Qed.

Lemma lstrip_spaces t : spaces t → lstrip t = "".
Proof.
  induction 1 as [|x t Hx _ IH]; [done|].
  by rewrite lstrip_unfold, after_space_whitespace.
Qed.

Lemma lstrip_spec s : ∃ l, s = l +:+ lstrip s ∧ spaces l.
Proof.
  assert (∀ n s, String.length s < n → ∃ l, s = l +:+ lstrip s ∧ spaces l)
    as Hind; [|apply (Hind (S (String.length s))); lia].
  clear s. induction n as [|n IH]; intros s Hn; [lia|].
  rewrite lstrip_unfold. destruct (after_space s) as [r|] eqn:Hr.
  - pose proof (after_space_shorter _ _ Hr).
    apply after_space_Some in Hr as (x & Hx & ->).
    destruct (IH r) as (l & Hl & Hsp); [lia|].
    exists (x +:+ l). split; [by rewrite sapp_assoc, <- Hl|by constructor].
  - exists "". split; [done|constructor].
Qed.

Lemma lstrip_head s x : x ∈ whitespace → startswith (lstrip s) x = false.
Proof.
  intros Hx.
  assert (∀ n s, String.length s < n → startswith (lstrip s) x = false)
    as Hind; [|apply (Hind (S (String.length s))); lia].
  clear s. induction n as [|n IH]; intros s Hn; [lia|].
  rewrite lstrip_unfold. destruct (after_space s) as [r|] eqn:Hr.
  - apply IH. pose proof (after_space_shorter _ _ Hr). lia.
  - by apply after_space_None.
Qed.

Lemma lstrip_fix s :
  (∀ x, x ∈ whitespace → startswith s x = false) → lstrip s = s.
Proof.
  intros Hs. rewrite lstrip_unfold.
  destruct (after_space s) as [r|] eqn:Hr; [|done].
  apply after_space_Some in Hr as (x & Hx & ->).
  assert (startswith (x +:+ r) x = true) as Hst
    by (apply startswith_spec; eauto).
  by rewrite Hs in Hst.
Qed.

Lemma all_space_spaces s : all_space s = true ↔ spaces s.
Proof.
  unfold all_space. rewrite bool_decide_eq_true. split.
  - intros Hs. destruct (lstrip_spec s) as (l & Hl & Hsp).
    rewrite Hs, sapp_nil_r in Hl. by subst.
  - apply lstrip_spaces.
Qed.

Lemma rstrip_unfold c s :
  rstrip (String c s) =
    if all_space (String c s) then "" else String c (rstrip s).
Proof. reflexivity. Qed.

Lemma rstrip_spec s : ∃ r, s = rstrip s +:+ r ∧ spaces r.
Proof.
  induction s as [|c s (r & Hs & Hr)]; [exists ""; split; [done|constructor]|].
  rewrite rstrip_unfold. destruct (all_space (String c s)) eqn:Hc.
  - exists (String c s). split; [done|by apply all_space_spaces].
  - exists r. by rewrite sapp_cons, <- Hs.
Qed.

(** Where [rstrip] cuts, nothing before the cut is the start of a run of
    white space that reaches the end. *)
Lemma rstrip_cut s p q r :
  rstrip s = p +:+ q → q ≠ "" → s = rstrip s +:+ r →
  all_space (q +:+ r) = false.
Proof.
  revert p. induction s as [|c s IH]; intros p Hpq Hq Hr.
  { simpl in Hpq. destruct p, q; done. }
  rewrite rstrip_unfold in Hpq, Hr.
  destruct (all_space (String c s)) eqn:Hc.
  { destruct p, q; done. }
  rewrite sapp_cons in Hr. injection Hr as Hr.
  destruct p as [|c' p].
  - rewrite sapp_nil_l in Hpq. subst q. by rewrite sapp_cons, <- Hr.
  - rewrite sapp_cons in Hpq. injection Hpq as _ Hpq. by eapply IH.
Qed.

Lemma rstrip_last s x : x ∈ whitespace → endswith (rstrip s) x = false.
Proof.
  intros Hx. destruct (endswith (rstrip s) x) eqn:He; [|done].
  apply endswith_spec in He as [p Hp].
  destruct (rstrip_spec s) as (r & Hs & Hr).
  assert (all_space (x +:+ r) = false) as Hcut.
  { eapply rstrip_cut; [exact Hp| |exact Hs].
    apply whitespace_stands_alone in Hx as [_ Hx]. by destruct x. }
  assert (all_space (x +:+ r) = true) as Hall
    by (apply all_space_spaces; by constructor).
  by rewrite Hall in Hcut.
Qed.

Lemma rstrip_head s x :
  startswith s x = false → x ≠ "" → startswith (rstrip s) x = false.
Proof.
  intros Hs Hx. destruct (startswith (rstrip s) x) eqn:Hst; [|done].
  apply startswith_spec in Hst as [post Hpost].
  destruct (rstrip_spec s) as (r & Hr & _).
  assert (startswith s x = true) as Hst.
  { apply startswith_spec. exists (post +:+ r).
    by rewrite Hr at 1; rewrite Hpost, sapp_assoc. }
  by rewrite Hs in Hst.
Qed.

Lemma spaces_last t :
  spaces t → t ≠ "" → ∃ p x, x ∈ whitespace ∧ t = p +:+ x.
Proof.
  induction 1 as [|x t Hx Ht IH]; intros Hne; [done|].
  destruct (decide (t = "")) as [->|Hnt].
  - exists "", x. by rewrite sapp_nil_r.
  - destruct (IH Hnt) as (p & y & Hy & ->).
    exists (x +:+ p), y. by rewrite sapp_assoc.
Qed.

Lemma rstrip_fix s :
  (∀ x, x ∈ whitespace → endswith s x = false) → rstrip s = s.
Proof.
  induction s as [|c s IH]; intros Hs; [done|].
  rewrite rstrip_unfold. destruct (all_space (String c s)) eqn:Hc.
  - apply all_space_spaces, spaces_last in Hc as (p & x & Hx & Hp); [|done].
    assert (endswith (String c s) x = true) as He
      by (apply endswith_spec; eauto).
    by rewrite Hs in He.
  - f_equal. apply IH. intros x Hx.
    destruct (endswith s x) eqn:He; [|done].
    apply endswith_spec in He as [p ->].
    assert (endswith (String c (p +:+ x)) x = true) as He
      by (apply endswith_spec; by exists (String c p)).
    by rewrite Hs in He.
Qed.

(** [strip] removes white space at both ends and nothing else. *)
Lemma strip_spec s :
  ∃ l r, s = l +:+ strip s +:+ r ∧ spaces l ∧ spaces r ∧
         (∀ x, x ∈ whitespace → startswith (strip s) x = false) ∧
         (∀ x, x ∈ whitespace → endswith (strip s) x = false).
Proof.
  destruct (lstrip_spec s) as (l & Hs & Hl).
  destruct (rstrip_spec (lstrip s)) as (r & Hm & Hr).
  exists l, r. unfold strip. split_and!; [congruence|done|done| |].
  - intros x Hx. apply rstrip_head; [by apply lstrip_head|].
    apply whitespace_stands_alone in Hx as [_ Hx]. by destruct x.
  - intros x Hx. by apply rstrip_last.
Qed.

Lemma strip_idem s : strip (strip s) = strip s.
Proof.
  destruct (strip_spec s) as (l & r & _ & _ & _ & Hhead & Hlast).
  unfold strip at 1. rewrite (lstrip_fix (strip s)) by exact Hhead.
  by apply rstrip_fix.
Qed.

(** ** Numbers and record lines *)

Lemma no_char_app c s t :
  no_char c (s +:+ t) = no_char c s && no_char c t.
Proof.
  induction s as [|a s IH]; [done|]. rewrite sapp_cons. simpl.
  by rewrite IH, andb_assoc.
Qed.

Lemma sapp_sep_inj c s1 t1 s2 t2 :
  no_char c s1 = true → no_char c s2 = true →
  s1 +:+ String c t1 = s2 +:+ String c t2 → s1 = s2 ∧ t1 = t2.
Proof.
  revert s2. induction s1 as [|a s1 IH]; intros [|b s2] H1 H2 Heq;
    rewrite ?sapp_nil_l, ?sapp_cons in Heq; simpl in *.
  - by simplify_eq.
  - injection Heq as <- _. by rewrite bool_decide_eq_true_2 in H2.
  - injection Heq as -> _. by rewrite bool_decide_eq_true_2 in H1.
  - injection Heq as -> Heq.
    apply andb_true_iff in H1 as [_ H1]. apply andb_true_iff in H2 as [_ H2].
    destruct (IH s2 H1 H2 Heq) as [-> ->]. done.
Qed.

Lemma pretty_N_go_no_char c x s :
  (∀ d, pretty_N_char d ≠ c) →
  no_char c s = true → no_char c (pretty_N_go x s) = true.
Proof.
  intros Hc. revert s.
  induction (N.lt_wf_0 x) as [x _ IH]; intros s Hs.
  destruct (decide (x = 0%N)) as [->|Hx]; [by rewrite pretty_N_go_0|].
  rewrite pretty_N_go_step by lia. apply IH.
  - apply N.div_lt; lia.
  - simpl. rewrite Hs, bool_decide_eq_false_2 by apply Hc. done.
Qed.

Lemma fmt_d_no_char c n :
  (∀ d, pretty_N_char d ≠ c) → no_char c (fmt_d n) = true.
Proof.
  intros Hc. unfold fmt_d, pretty, pretty_nat, pretty, pretty_N.
  case_decide.
  - simpl. rewrite bool_decide_eq_false_2; [done|]. apply (Hc 0%N).
  - by apply pretty_N_go_no_char.
Qed.

Lemma digit_not_tab d : pretty_N_char d ≠ "009"%char.
Proof. unfold pretty_N_char. by repeat case_match. Qed.

Lemma digit_not_newline d : pretty_N_char d ≠ "010"%char.
Proof. unfold pretty_N_char. by repeat case_match. Qed.

Lemma index_line_inj r1 r2 : index_line r1 = index_line r2 → r1 = r2.
Proof.
  destruct r1 as [n u], r2 as [m v]. unfold index_line. simpl.
  change (TAB +:+ u) with (String "009" u).
  change (TAB +:+ v) with (String "009" v). intros Heq.
  apply sapp_sep_inj in Heq as [Hn ->];
    [|by apply fmt_d_no_char, digit_not_tab..].
  by apply (inj pretty) in Hn as ->.
Qed.

(** * The resource filter *)

Lemma is_bad_resource_url_unfold url :
  is_bad_resource_url url =
    any_endswith (lower (before_query_fragment url))
      (elements DISALLOWED_EXTENSIONS).
Proof.
  unfold is_bad_resource_url.
  by rewrite !split_item0, upto_twice, lower_before_query_fragment.
Qed.

(** * URL normalisation *)

Lemma first_occurrences_elem l x : x ∈ first_occurrences l ↔ x ∈ l.
Proof.
  induction l as [|y l IH]; simpl; [done|].
  rewrite !elem_of_cons, list_elem_of_filter, IH.
  destruct (decide (x = y)); naive_solver.
Qed.

Lemma first_occurrences_NoDup l : NoDup (first_occurrences l).
Proof.
  induction l as [|y l IH]; simpl; [constructor|].
  apply NoDup_cons. split; [|by apply NoDup_filter].
  rewrite list_elem_of_filter. naive_solver.
Qed.

Lemma first_occurrences_sublist l : first_occurrences l `sublist_of` l.
Proof.
  induction l as [|y l IH]; simpl; [done|].
  constructor. etrans; [apply sublist_filter|done].
Qed.

Lemma first_occurrences_app l1 l2 :
  first_occurrences (l1 ++ l2) =
  first_occurrences l1 ++ filter (λ y, y ∉ l1) (first_occurrences l2).
Proof.
  induction l1 as [|x l1 IH]; simpl.
  - symmetry. induction (first_occurrences l2) as [|y k IHk]; [done|].
    rewrite filter_cons_True by apply not_elem_of_nil. by rewrite IHk.
  - f_equal. rewrite IH, filter_app, list_filter_filter. f_equal.
    apply list_filter_iff. intros y. rewrite not_elem_of_cons. tauto.
Qed.

Lemma candidates_cons j urls :
  candidates (j :: urls) =
    match j with
    | JStr s =>
        if decide (strip s = "") then candidates urls
        else if is_bad_resource_url (strip s) then candidates urls
        else strip s :: candidates urls
    | _ => candidates urls
    end.
Proof.
  unfold candidates. destruct j; simpl; try done.
  rewrite filter_cons. case_decide as Hne.
  - rewrite decide_False by done. rewrite filter_cons.
    destruct (is_bad_resource_url (strip s)); by case_decide.
  - by rewrite decide_True by (by destruct (decide (strip s = ""))).
Qed.

Lemma normalize_loop_spec urls (seen : gset string) out :
  (∀ u, u ∈ seen ↔ u ∈ out) →
  normalize_loop urls seen out =
  out ++ filter (λ u, u ∉ out) (first_occurrences (candidates urls)).
Proof.
  revert seen out. induction urls as [|j urls IH]; intros seen out Hseen.
  { simpl. by rewrite app_nil_r. }
  rewrite candidates_cons.
  destruct j as [| | | |s| |]; simpl; try by apply IH.
  case_decide as Hempty; [by apply IH|].
  destruct (is_bad_resource_url (strip s)); [by apply IH|].
  simpl. case_decide as Hin.
  - rewrite (IH _ _ Hseen), filter_cons_False by (rewrite <- Hseen; auto).
    f_equal. symmetry. apply list_filter_filter_l.
    intros y Hy ->. apply Hy. by apply Hseen.
  - rewrite filter_cons_True by (by rewrite <- Hseen).
    rewrite IH.
    + rewrite <- app_assoc. simpl. do 2 f_equal.
      rewrite list_filter_filter. apply list_filter_iff.
      intros y. rewrite elem_of_app, list_elem_of_singleton. tauto.
    + intros u. rewrite elem_of_union, elem_of_singleton, elem_of_app,
        list_elem_of_singleton, Hseen. tauto.
Qed.

Lemma normalize_urls_first_occurrences urls :
  normalize_urls urls = first_occurrences (candidates urls).
Proof.
  unfold normalize_urls. rewrite normalize_loop_spec by set_solver.
  simpl. induction (first_occurrences (candidates urls)) as [|y k IH]; [done|].
  rewrite filter_cons_True by apply not_elem_of_nil. by rewrite IH.
Qed.

Lemma candidates_elem urls u :
  u ∈ candidates urls ↔
  ∃ s, JStr s ∈ urls ∧ u = strip s ∧ u ≠ "" ∧ is_bad_resource_url u = false.
Proof.
  unfold candidates. split.
  - intros H. apply list_elem_of_filter in H. destruct H as [Hbad H].
    apply list_elem_of_filter in H. destruct H as [Hne H].
    apply list_elem_of_omap in H. destruct H as (j & Hj & Hs).
    destruct j; try discriminate Hs. injection Hs as <-.
    exists s. split; [exact Hj|]. split; [reflexivity|]. split; assumption.
  - intros (s & Hs & -> & Hne & Hbad).
    apply list_elem_of_filter. split; [exact Hbad|].
    apply list_elem_of_filter. split; [exact Hne|].
    apply list_elem_of_omap. exists (JStr s). split; [exact Hs|reflexivity].
Qed.

Lemma normalize_urls_elem urls u :
  u ∈ normalize_urls urls ↔
  ∃ s, JStr s ∈ urls ∧ u = strip s ∧ u ≠ "" ∧ is_bad_resource_url u = false.
Proof.
  by rewrite normalize_urls_first_occurrences, first_occurrences_elem,
    candidates_elem.
Qed.

Lemma normalize_urls_NoDup urls : NoDup (normalize_urls urls).
Proof.
  rewrite normalize_urls_first_occurrences. apply first_occurrences_NoDup.
Qed.

Lemma is_bad_resource_url_true url :
  is_bad_resource_url url = true ↔ has_rejected_extension url.
Proof.
  rewrite is_bad_resource_url_unfold, any_endswith_spec.
  unfold has_rejected_extension. split.
  - intros (ext & Hext%elem_of_elements & [p Hp]%endswith_spec). eauto.
  - intros (ext & p & Hext & Hp). exists ext. split.
    + by apply elem_of_elements.
    + apply endswith_spec. eauto.
Qed.

Lemma is_bad_resource_url_false url :
  is_bad_resource_url url = false ↔ ¬ has_rejected_extension url.
Proof.
  rewrite <- is_bad_resource_url_true.
  destruct (is_bad_resource_url url); split; intros H; try reflexivity.
  - discriminate H.
  - by destruct H.
  - intros H'. discriminate H'.
Qed.

(** C6: the resource filter answers true exactly for the URLs that, cut at
    the first [?] or [#] and lower-cased, end with one of the rejected
    extensions; every other URL passes the filter, and a non-empty trimmed
    entry that passes it is kept by the normalisation whatever else it
    contains. *)
Theorem resource_filter_rejects_by_extension_only :
  (∀ url, is_bad_resource_url url = true ↔ has_rejected_extension url) ∧
  (∀ url, is_bad_resource_url url = false ↔ ¬ has_rejected_extension url) ∧
  (∀ urls s, JStr s ∈ urls → strip s ≠ "" →
     (strip s ∈ normalize_urls urls ↔ ¬ has_rejected_extension (strip s))).
Proof.
  split_and!.
  - apply is_bad_resource_url_true.
  - apply is_bad_resource_url_false.
  - intros urls s Hs Hne. rewrite normalize_urls_elem. split.
    + intros (s' & _ & _ & _ & Hbad). by apply is_bad_resource_url_false.
    + intros Hok%is_bad_resource_url_false. exists s.
      split; [exact Hs|]. split; [reflexivity|]. split; assumption.
Qed.

Example resource_filter_examples :
  is_bad_resource_url "https://a.test/image.PNG?x=1#f" = true ∧
  is_bad_resource_url "https://a.test/font.woff2#top" = true ∧
  is_bad_resource_url "https://a.test/page#a.png" = false ∧
  is_bad_resource_url "https://a.test/view?file=report.pdf" = false ∧
  is_bad_resource_url "https://a.test/js/" = false.
Proof. vm_compute. done. Qed.

(** C5: the normalised list is the list of first occurrences among the
    entries that are strings, trimmed of surrounding white space, non-empty
    after trimming and not rejected by the resource filter.  It has no
    duplicates, keeps the order of the input, and an entry whose first
    occurrence follows the entries [l1] comes right after the first
    occurrences of [l1].  Trimming cuts a run of white-space characters of
    Python's table, ASCII or not, off each end, and what is left neither
    begins nor ends with such a character. *)
Theorem normalize_urls_first_occurrence_order urls :
  normalize_urls urls = first_occurrences (candidates urls) ∧
  NoDup (normalize_urls urls) ∧
  normalize_urls urls `sublist_of` candidates urls ∧
  (∀ u, u ∈ normalize_urls urls ↔
        ∃ s, JStr s ∈ urls ∧ u = strip s ∧ u ≠ "" ∧
             is_bad_resource_url u = false) ∧
  (∀ l1 u l2, candidates urls = l1 ++ u :: l2 → u ∉ l1 →
        ∃ k, normalize_urls urls = first_occurrences l1 ++ u :: k) ∧
  (∀ s, ∃ l r, s = l +:+ strip s +:+ r ∧ spaces l ∧ spaces r ∧
               (∀ x, x ∈ whitespace → startswith (strip s) x = false) ∧
               (∀ x, x ∈ whitespace → endswith (strip s) x = false)).
Proof.
  split_and!.
  - apply normalize_urls_first_occurrences.
  - apply normalize_urls_NoDup.
  - rewrite normalize_urls_first_occurrences. apply first_occurrences_sublist.
  - apply normalize_urls_elem.
  - intros l1 u l2 Hc Hu.
    rewrite normalize_urls_first_occurrences, Hc, first_occurrences_app.
    simpl. rewrite filter_cons_True by exact Hu. eauto.
  - apply strip_spec.
Qed.

Example whitespace_encodings :
  length whitespace = 29 ∧
  utf8 0x20 = " " ∧
  utf8 0x85 = String "194" (String "133" "") ∧
  utf8 0xA0 = String "194" (String "160" "") ∧
  utf8 0x2003 = String "226" (String "128" (String "131" "")) ∧
  utf8 0x3000 = String "227" (String "128" (String "128" "")).
Proof. vm_compute. done. Qed.

Example normalize_urls_unicode_space :
  normalize_urls
    [ JStr " https://a.test/x"; JStr "https://a.test/x 　";
      JStr " 　"; JStr " a b " ]
  = ["https://a.test/x"; "a b"].
Proof. vm_compute. done. Qed.

Example normalize_urls_example :
  normalize_urls
    [ JStr "https://a.test/page"; JStr "  https://a.test/image.png";
      JInt 3; JStr "   "; JNull; JStr "https://b.test/";
      JStr " https://a.test/page  "; JArr [JStr "https://c.test/"] ]
  = ["https://a.test/page"; "https://b.test/"].
Proof. vm_compute. done. Qed.

(** * The effectful part *)

Section Verification.

Context {Net : Type}.
Context (http_get : Net → Session → string → Z → bool → Net * outcome).
Context (json_loads : string → option json).
Context (MAX_PAGES RETRIES : nat).

Implicit Types (w : World Net) (p : Path) (url body : string).
Implicit Types (pages : list (string * string)) (k saved : nat).

Local Abbreviation fetch_loop := (fetch_loop http_get).
Local Abbreviation fetch_html := (fetch_html http_get RETRIES).
Local Abbreviation main_loop := (main_loop http_get MAX_PAGES RETRIES).
Local Abbreviation load_urls := (load_urls (Net:=Net) json_loads).
Local Abbreviation main := (main http_get json_loads MAX_PAGES RETRIES).

Lemma parent_path_join p name : parent (path_join p name) = p.
Proof. unfold parent, path_join. apply removelast_last. Qed.

Lemma lineage_self p : p ≠ [] → p ∈ lineage p.
Proof.
  intros Hp. unfold lineage. apply list_elem_of_fmap.
  exists (length p). split; [by rewrite firstn_all|].
  apply elem_of_seq. destruct p; simpl in *; [done|lia].
Qed.

Lemma is_dir_after_mkdir p (d : gset (list string)) fl :
  is_dir {| dirs := list_to_set (lineage p) ∪ d; files := fl |} p = true.
Proof.
  unfold is_dir. apply bool_decide_eq_true. simpl.
  destruct (decide (p = [])) as [->|Hp]; [by left|right].
  apply elem_of_union_l, elem_of_list_to_set. by apply lineage_self.
Qed.

(** ** Persistence writer *)

Lemma save_page_spec p (number : nat) body w :
  save_page p number body w =
    (Ok (path_join p (fmt_d number +:+ ".txt")),
     {| net := net w;
        fs := {| dirs := list_to_set (lineage p) ∪ dirs (fs w);
                 files := <[path_join p (fmt_d number +:+ ".txt") := body]>
                            (files (fs w)) |};
        log := log w ++ [EvMkdir p;
                         EvWrite (path_join p (fmt_d number +:+ ".txt")) body]
     |}).
Proof.
  unfold save_page, mbind, M_bind, mkdir, write_text, mret, M_ret. simpl.
  rewrite parent_path_join, is_dir_after_mkdir. by rewrite <- app_assoc.
Qed.

(** ** Index flush *)

Lemma join_unlines l : l ≠ [] → join NL l +:+ NL = unlines l.
Proof.
  induction l as [|x [|y l] IH]; intros Hl; [done| |].
  - simpl. by rewrite sapp_nil_r.
  - change (join NL (x :: y :: l)) with (x +:+ NL +:+ join NL (y :: l)).
    rewrite !sapp_assoc, IH by done. done.
Qed.

Lemma write_index_spec (index_lines : list (nat * string)) w :
  write_index (mkPath INDEX_PATH) index_lines w =
    (Ok (),
     {| net := net w;
        fs := {| dirs := dirs (fs w);
                 files := <[mkPath INDEX_PATH := index_text index_lines]>
                            (files (fs w)) |};
        log := log w ++ [EvWrite (mkPath INDEX_PATH) (index_text index_lines)]
     |}).
Proof. reflexivity. Qed.

Lemma index_line_format (index_lines : list (nat * string)) :
  index_line <$> index_lines
  = (λ '(n, url), pretty n +:+ TAB +:+ url) <$> index_lines.
Proof.
  induction index_lines as [|[n url] l IH]; [done|].
  rewrite !fmap_cons, IH. done.
Qed.

(** C10: with no page saved the flush still writes the index file, and
    the file is one newline character, not the empty file.  In general the
    text is the records, each as the decimal number, one tab character and
    the URL, joined by newlines and followed by one more newline, which for
    a non-empty index is every record line followed by one newline.  The
    number holds no tab, so a record line determines its number and its
    URL. *)
Theorem write_index_empty_is_newline w :
  (∃ w', write_index (mkPath INDEX_PATH) [] w = (Ok (), w') ∧
         files (fs w') !! mkPath INDEX_PATH = Some NL ∧
         log w' = log w ++ [EvWrite (mkPath INDEX_PATH) NL]) ∧
  String.length NL = 1 ∧
  NL = String "010" "" ∧
  TAB = String "009" "" ∧
  (∀ index_lines, ∃ w',
      write_index (mkPath INDEX_PATH) index_lines w = (Ok (), w') ∧
      files (fs w') !! mkPath INDEX_PATH = Some (index_text index_lines)) ∧
  (∀ index_lines,
      index_text index_lines =
        join NL ((λ '(n, url), pretty n +:+ TAB +:+ url) <$> index_lines)
        +:+ NL) ∧
  (∀ a b l, join NL [] = "" ∧ join NL [a] = a ∧
            join NL (a :: b :: l) = a +:+ NL +:+ join NL (b :: l)) ∧
  (∀ index_lines, index_lines ≠ [] →
      index_text index_lines =
        unlines ((λ '(n, url), pretty n +:+ TAB +:+ url) <$> index_lines)) ∧
  (∀ a l, unlines [] = "" ∧ unlines (a :: l) = a +:+ NL +:+ unlines l) ∧
  (∀ (n m : nat) url url',
      pretty n +:+ TAB +:+ url = pretty m +:+ TAB +:+ url' →
      n = m ∧ url = url') ∧
  index_text [(1, "https://a.test/page"); (12, "https://b.test/")] =
    "1" +:+ TAB +:+ "https://a.test/page" +:+ NL +:+
    "12" +:+ TAB +:+ "https://b.test/" +:+ NL.
Proof.
  split_and!.
  - eexists. rewrite write_index_spec. split_and!; try reflexivity.
    apply lookup_insert_eq.
  - reflexivity.
  - reflexivity.
  - reflexivity.
  - intros idx. eexists. rewrite write_index_spec. split; [reflexivity|].
    apply lookup_insert_eq.
  - intros idx. unfold index_text. by rewrite index_line_format.
  - intros a b l. split_and!; reflexivity.
  - intros idx Hidx. unfold index_text. rewrite index_line_format.
    apply join_unlines. by destruct idx.
  - intros a l. split; reflexivity.
  - intros n m url url' Heq.
    assert ((n, url) = (m, url')) as Hr by (by apply index_line_inj).
    by injection Hr.
  - vm_compute. reflexivity.
Qed.

(** ** URL source *)

Lemma load_urls_unfold file_path w :
  load_urls file_path w =
    match files (fs w) !! mkPath file_path with
    | None => (Raise (FileNotFoundError (mkPath file_path)), w)
    | Some content =>
        match json_loads content with
        | None => (Raise JSONDecodeError, w)
        | Some (JObj data) =>
            match default (JArr []) (data !! "urls") with
            | JArr l => (Ok (normalize_urls l), w)
            | _ => (Raise (ValueError
                      "urls.json: поле 'urls' должно быть массивом строк"), w)
            end
        | Some _ => (Raise AttributeError, w)
        end
    end.
Proof.
  unfold Crawler.load_urls, mbind, M_bind, read_text.
  destruct (files (fs w) !! mkPath file_path) as [content|]; [|done].
  destruct (json_loads content) as [[| | | | | |data]|]; try done.
  by destruct (default (JArr []) (data !! "urls")).
Qed.

Lemma load_urls_world file_path w r w' :
  load_urls file_path w = (r, w') → w' = w.
Proof.
  rewrite load_urls_unfold. intros H.
  repeat (case_match; simplify_eq); done.
Qed.

(** C7: loading the URL list raises exactly when the input is not a
    readable JSON object or its [urls] field is present and is not a list.
    Without a [urls] field the result is the normalisation of the empty
    list, which is the empty list.  The world is left as it was. *)
Theorem load_urls_fails_iff file_path w :
  ((∃ e, load_urls file_path w = (Raise e, w)) ↔
     parsed_input json_loads file_path w = None ∨
     ∃ data v, parsed_input json_loads file_path w = Some data ∧
               data !! "urls" = Some v ∧ ∀ l, v ≠ JArr l) ∧
  (∀ data, parsed_input json_loads file_path w = Some data →
     data !! "urls" = None →
     load_urls file_path w = (Ok (normalize_urls []), w) ∧
     normalize_urls [] = []) ∧
  (∀ data l, parsed_input json_loads file_path w = Some data →
     data !! "urls" = Some (JArr l) →
     load_urls file_path w = (Ok (normalize_urls l), w)).
Proof.
  rewrite load_urls_unfold. unfold parsed_input.
  destruct (files (fs w) !! mkPath file_path) as [content|].
  2:{ split_and!; [|done..]. split; [by left|eauto]. }
  destruct (json_loads content) as [[| | | | | |data]|].
  1-6,8: split_and!; [|done..]; split; [by left|eauto].
  destruct (data !! "urls") as [v|] eqn:Hv; simpl.
  - split_and!.
    + split.
      * intros [e He]. right. exists data, v. split_and!; [done..|].
        intros l ->. discriminate He.
      * intros [?|(data' & v' & Hd & Hv' & Hl)]; [done|].
        injection Hd as <-. rewrite Hv in Hv'. injection Hv' as <-.
        destruct v; eauto. by destruct (Hl l).
    + intros data' ??. simplify_eq.
    + intros data' l ??. by simplify_eq.
  - split_and!.
    + split; [by intros [e ?]|]. intros [?|(? & ? & ? & ? & ?)]; simplify_eq.
    + intros data' ??. by simplify_eq.
    + intros data' l ??. simplify_eq.
Qed.

(** ** Fetcher *)

Lemma is_html_response_spec resp :
  is_html_response resp = true ↔ declares_html resp.
Proof.
  unfold is_html_response, declares_html.
  by rewrite orb_true_iff, !contains_spec.
Qed.

Lemma fetch_loop_cons session url attempt rest w :
  fetch_loop session url (attempt :: rest) w =
    let no := http_get (net w) session url TIMEOUT_SEC true in
    let w1 := {| net := no.1; fs := fs w; log := log w ++ [EvGet url no.2] |} in
    match no.2 with
    | Responded resp => (Ok (accepted no.2), w1)
    | Raised => fetch_loop session url rest (emit (EvSleep (backoff attempt)) w1)
    end.
Proof.
  simpl. unfold mbind, M_bind, session_get.
  destruct (http_get (net w) session url TIMEOUT_SEC true) as [n [|resp]];
    simpl; [done|].
  unfold mret, M_ret. case_decide; [done|].
  by destruct (is_html_response resp).
Qed.

Lemma fetch_loop_all_raise session url attempts : ∀ w,
  every_attempt_raises http_get session url (length attempts) (net w) = true →
  ∃ w', fetch_loop session url attempts w = (Ok None, w') ∧
        fs w' = fs w ∧
        log w' = log w ++ flat_map (failed_attempt url) attempts.
Proof.
  induction attempts as [|attempt rest IH]; intros w Hr.
  - exists w. simpl. by rewrite app_nil_r.
  - rewrite fetch_loop_cons. simpl in Hr.
    destruct (http_get (net w) session url TIMEOUT_SEC true) as [n [|resp]];
      [|done]. simpl.
    destruct (IH (emit (EvSleep (backoff attempt))
                    {| net := n; fs := fs w; log := log w ++ [EvGet url Raised] |})
                 Hr) as (w' & Hrun & Hfs & Hlog).
    exists w'. split_and!; [done..|].
    rewrite Hlog. simpl. by rewrite <- !app_assoc.
Qed.

Lemma failed_attempts_gets url attempts :
  length (filter (λ e, is_get e = true) (flat_map (failed_attempt url) attempts))
  = length attempts.
Proof.
  induction attempts as [|attempt rest IH]; [done|]. simpl.
  rewrite filter_cons_False by done. by rewrite IH.
Qed.

(** C3: when every attempt for a URL raises, the fetcher makes exactly
    [RETRIES] calls of [session.get], sleeps [0.5 * attempt] seconds after
    the failure of attempt number [attempt] for [attempt = 1 .. RETRIES],
    each sleep but the last followed by the next attempt, and then returns
    [None].  It touches no file. *)
Theorem fetch_html_retries_then_gives_up session url w :
  every_attempt_raises http_get session url RETRIES (net w) = true →
  ∃ w' evs,
    fetch_html session url w = (Ok None, w') ∧
    fs w' = fs w ∧
    log w' = log w ++ evs ∧
    evs = flat_map (failed_attempt url) (seq 1 RETRIES) ∧
    length (filter (λ e, is_get e = true) evs) = RETRIES.
Proof.
  intros Hr. unfold Crawler.fetch_html.
  destruct (fetch_loop_all_raise session url (seq 1 RETRIES) w)
    as (w' & Hrun & Hfs & Hlog).
  { by rewrite length_seq. }
  exists w', (flat_map (failed_attempt url) (seq 1 RETRIES)).
  split_and!; [done..|]. by rewrite failed_attempts_gets, length_seq.
Qed.

(** C4: when the first attempt delivers a response, that attempt is the
    only one and nothing is slept.  A status other than 200 gives [None].
    With status 200 the body is returned exactly when the lower-cased
    Content-Type contains [text/html] or [application/xhtml+xml], and
    [None] is returned otherwise. *)
Theorem fetch_html_response_decides_at_once session url w n resp :
  0 < RETRIES →
  http_get (net w) session url TIMEOUT_SEC true = (n, Responded resp) →
  ∃ r,
    fetch_html session url w =
      (Ok r, {| net := n; fs := fs w;
                log := log w ++ [EvGet url (Responded resp)] |}) ∧
    (status_code resp ≠ 200%Z → r = None) ∧
    (status_code resp = 200%Z →
       (r = Some (text resp) ↔ declares_html resp) ∧
       (r = None ↔ ¬ declares_html resp)).
Proof.
  intros Hretries Hget. unfold Crawler.fetch_html.
  destruct RETRIES as [|k]; [lia|].
  rewrite <- cons_seq, fetch_loop_cons, Hget. simpl.
  eexists. split; [reflexivity|]. rewrite <- is_html_response_spec.
  case_decide as Hstatus.
  - split; [done|]. intros Hs. by destruct Hstatus.
  - split; [done|]. intros _.
    destruct (is_html_response resp); simpl; split; split; done.
Qed.

(** ** Orchestrator *)

Lemma fetch_loop_spec session url attempts : ∀ w,
  ∃ r w' evs,
    fetch_loop session url attempts w = (Ok r, w') ∧
    fs w' = fs w ∧
    log w' = log w ++ evs ∧
    omap page_event evs = option_list (Fetched url <$> r) ∧
    (∀ line, EvPrint line ∉ evs).
Proof.
  induction attempts as [|attempt rest IH]; intros w.
  { exists None, w, []. split_and!; try done.
    - by rewrite app_nil_r.
    - intros line. apply not_elem_of_nil. }
  rewrite fetch_loop_cons.
  destruct (http_get (net w) session url TIMEOUT_SEC true) as [n [|resp]];
    cbn [fst snd].
  - destruct (IH (emit (EvSleep (backoff attempt))
                    {| net := n; fs := fs w; log := log w ++ [EvGet url Raised] |}))
      as (r & w' & evs & Hrun & Hfs & Hlog & Hobs & Hprint).
    exists r, w', (EvGet url Raised :: EvSleep (backoff attempt) :: evs).
    split_and!; try done.
    + rewrite Hlog. simpl. by rewrite <- !app_assoc.
    + intros line. rewrite !not_elem_of_cons. split_and!; [done..|apply Hprint].
  - eexists (accepted (Responded resp)), _, [EvGet url (Responded resp)].
    split_and!; try done.
    intros line. rewrite not_elem_of_cons. split; [done|apply not_elem_of_nil].
Qed.

Lemma main_loop_cons session out_dir url rest saved index_lines w :
  main_loop session out_dir (url :: rest) saved index_lines w =
    if decide (MAX_PAGES ≤ saved) then (Ok (saved, index_lines), w)
    else
      match fetch_html session url w with
      | (Raise e, w1) => (Raise e, w1)
      | (Ok None, w1) =>
          main_loop session out_dir rest saved index_lines
            (emit (EvSleep REQUEST_DELAY_SEC)
               (emit (EvPrint ("[SKIP] " +:+ url)) w1))
      | (Ok (Some html), w1) =>
          match save_page out_dir (S saved) html w1 with
          | (Raise e, w2) => (Raise e, w2)
          | (Ok _, w2) =>
              main_loop session out_dir rest (S saved)
                (index_lines ++ [(S saved, url)])
                (emit (EvSleep REQUEST_DELAY_SEC)
                   (emit (EvPrint ("[OK]   " +:+ fmt_03d (S saved) +:+ ": "
                                   +:+ url)) w2))
          end
      end.
Proof.
  simpl. case_decide; [done|]. unfold mbind, M_bind.
  by destruct (fetch_html session url w) as [[[html|]|e] w1].
Qed.

Lemma main_loop_full session out_dir urls saved index_lines w :
  MAX_PAGES ≤ saved →
  main_loop session out_dir urls saved index_lines w =
    (Ok (saved, index_lines), w).
Proof.
  intros Hfull. destruct urls as [|url rest]; [done|].
  rewrite main_loop_cons. by rewrite decide_True.
Qed.

Lemma main_loop_app session out_dir urls more : ∀ saved index_lines w,
  main_loop session out_dir (urls ++ more) saved index_lines w =
    match main_loop session out_dir urls saved index_lines w with
    | (Ok (saved', index_lines'), w') =>
        main_loop session out_dir more saved' index_lines' w'
    | (Raise e, w') => (Raise e, w')
    end.
Proof.
  induction urls as [|url rest IH]; intros saved idx w; [done|].
  rewrite <- app_comm_cons, !main_loop_cons.
  case_decide as Hfull.
  { symmetry. apply main_loop_full. lia. }
  destruct (fetch_html session url w) as [[[html|]|e] w1]; try done.
  destruct (save_page out_dir (S saved) html w1) as [[?|?] ?]; done.
Qed.

Lemma number_from_fst k pages :
  (number_from k pages).*1 = seq (S k) (length pages).
Proof.
  revert k. induction pages as [|[u b] pages IH]; intros k; [done|].
  simpl. by rewrite IH.
Qed.

Lemma number_from_snd k pages : (number_from k pages).*2 = pages.*1.
Proof.
  revert k. induction pages as [|[u b] pages IH]; intros k; [done|].
  simpl. by rewrite IH.
Qed.

Lemma number_from_length k pages :
  length (number_from k pages) = length pages.
Proof. by rewrite <- (length_fmap fst), number_from_fst, length_seq. Qed.

Lemma store_pages_other k pages (m : gmap (list string) string) q :
  (∀ n, k < n → q ≠ page_path n) →
  store_pages k pages m !! q = m !! q.
Proof.
  revert k m. induction pages as [|[u b] pages IH]; intros k m Hq; [done|].
  simpl. rewrite IH by (intros n ?; apply Hq; lia).
  apply lookup_insert_ne. intros Heq. by apply (Hq (S k)); [lia|].
Qed.

Lemma store_pages_lookup k pages (m : gmap (list string) string) i u b :
  pages !! i = Some (u, b) →
  store_pages k pages m !! page_path (S (k + i)) = Some b.
Proof.
  revert k m i. induction pages as [|[u' b'] pages IH]; intros k m i Hi;
    [done|].
  destruct i as [|i]; simpl in *.
  - simplify_eq. rewrite Nat.add_0_r, store_pages_other.
    + apply lookup_insert_eq.
    + intros n Hn Heq%page_path_inj. lia.
  - rewrite <- Nat.add_succ_comm. by apply IH.
Qed.

(** The invariant of the loop, for any starting count and index. *)
Lemma main_loop_spec session urls : ∀ saved index_lines w,
  ∃ pages evs w',
    main_loop session (mkPath OUTPUT_DIR) urls saved index_lines w =
      (Ok (saved + length pages, index_lines ++ number_from saved pages), w') ∧
    log w' = log w ++ evs ∧
    files (fs w') = store_pages saved pages (files (fs w)) ∧
    omap page_event evs = page_trace saved pages ∧
    pages.*1 `sublist_of` urls ∧
    (saved ≤ MAX_PAGES → saved + length pages ≤ MAX_PAGES) ∧
    (∀ u, EvPrint ("[SKIP] " +:+ u) ∈ evs →
          u ∈ urls ∧ (NoDup urls → u ∉ pages.*1)).
Proof.
  induction urls as [|url rest IH]; intros saved idx w.
  { exists [], [], w. simpl. rewrite !app_nil_r, Nat.add_0_r.
    split_and!; try done. intros u []%elem_of_nil. }
  rewrite main_loop_cons. case_decide as Hfull.
  { exists [], [], w. simpl. rewrite !app_nil_r, Nat.add_0_r.
    split_and!; try done.
    - apply sublist_nil_l.
    - intros u []%elem_of_nil. }
  destruct (fetch_loop_spec session url (seq 1 RETRIES) w)
    as (r & w1 & evs1 & Hrun & Hfs1 & Hlog1 & Hobs1 & Hprint1).
  unfold Crawler.fetch_html. rewrite Hrun. destruct r as [html|].
  - rewrite save_page_spec.
    match goal with |- context [main_loop _ _ rest _ _ ?w3] =>
      destruct (IH (S saved) (idx ++ [(S saved, url)]) w3)
        as (pages & evs & w' & Hloop & Hlog & Hfiles & Hobs & Hsub & Hle & Hskip)
    end.
    exists ((url, html) :: pages),
      (evs1 ++ [EvMkdir (mkPath OUTPUT_DIR);
                EvWrite (page_path (S saved)) html;
                EvPrint ("[OK]   " +:+ fmt_03d (S saved) +:+ ": " +:+ url);
                EvSleep REQUEST_DELAY_SEC] ++ evs), w'.
    split_and!.
    + rewrite Hloop. simpl. rewrite <- app_assoc, Nat.add_succ_r. done.
    + rewrite Hlog. simpl. rewrite Hlog1, <- !app_assoc. done.
    + rewrite Hfiles. simpl. by rewrite Hfs1.
    + rewrite omap_app, Hobs1. simpl. do 2 f_equal. exact Hobs.
    + simpl. by constructor.
    + intros _. simpl. rewrite Nat.add_succ_r. apply Hle. lia.
    + intros u Hu. rewrite elem_of_app in Hu. destruct Hu as [Hu|Hu].
      { by destruct (Hprint1 _ Hu). }
      simpl in Hu. rewrite !elem_of_cons in Hu.
      destruct Hu as [?|[?|[Hu|[?|Hu]]]]; try discriminate.
      destruct (Hskip u Hu) as [Hin Hnot]. split; [by right|].
      intros [Hurl Hnd]%NoDup_cons. simpl. rewrite not_elem_of_cons.
      split; [|by apply Hnot]. by intros ->.
  - match goal with |- context [main_loop _ _ rest _ _ ?w3] =>
      destruct (IH saved idx w3)
        as (pages & evs & w' & Hloop & Hlog & Hfiles & Hobs & Hsub & Hle & Hskip)
    end.
    exists pages,
      (evs1 ++ [EvPrint ("[SKIP] " +:+ url); EvSleep REQUEST_DELAY_SEC] ++ evs),
      w'.
    split_and!.
    + done.
    + rewrite Hlog. simpl. rewrite Hlog1, <- !app_assoc. done.
    + rewrite Hfiles. simpl. by rewrite Hfs1.
    + rewrite omap_app, Hobs1. simpl. exact Hobs.
    + by constructor.
    + done.
    + intros u Hu. rewrite elem_of_app in Hu. destruct Hu as [Hu|Hu].
      { by destruct (Hprint1 _ Hu). }
      simpl in Hu. rewrite !elem_of_cons in Hu.
      destruct Hu as [Hu|[?|Hu]]; try discriminate.
      * injection Hu as Hu. change (u = url) in Hu. subst u.
        split; [by left|].
        intros [Hurl Hnd]%NoDup_cons Hin. apply Hurl.
        eapply elem_of_sublist; [exact Hin|exact Hsub].
      * destruct (Hskip u Hu) as [Hin Hnot]. split; [by right|].
        intros [Hurl Hnd]%NoDup_cons. by apply Hnot.
Qed.

Lemma number_from_lookup k pages i u b :
  pages !! i = Some (u, b) → number_from k pages !! i = Some (S (k + i), u).
Proof.
  revert k i. induction pages as [|[u' b'] pages IH]; intros k i Hi; [done|].
  destruct i as [|i]; simpl in *.
  - simplify_eq. by rewrite Nat.add_0_r.
  - rewrite <- Nat.add_succ_comm. by apply IH.
Qed.

Lemma page_trace_written k pages p b :
  Written p b ∈ page_trace k pages →
  ∃ n, p = page_path n ∧ k < n ≤ k + length pages.
Proof.
  revert k. induction pages as [|[u' b'] pages IH]; intros k; simpl.
  { intros []%elem_of_nil. }
  rewrite !elem_of_cons. intros [?|[?|Hin]]; [done| |].
  - simplify_eq. exists (S k). split; [done|lia].
  - destruct (IH _ Hin) as (n & -> & ?). exists n. split; [done|lia].
Qed.

Lemma page_trace_count k pages :
  length (filter (λ o, is_written o = true) (page_trace k pages))
  = length pages.
Proof.
  revert k. induction pages as [|[u' b'] pages IH]; intros k; [done|].
  simpl. by rewrite IH.
Qed.

Lemma main_unfold w :
  main w =
    match load_urls URLS_FILE w with
    | (Raise e, w0) => (Raise e, w0)
    | (Ok urls, w0) =>
        if decide (urls = []) then (Raise (SystemExit empty_message), w0)
        else
          match main_loop create_http_session (mkPath OUTPUT_DIR) urls 0 [] w0
          with
          | (Raise e, w1) => (Raise e, w1)
          | (Ok (saved, index_lines), w1) =>
              match write_index (mkPath INDEX_PATH) index_lines w1 with
              | (Raise e, w2) => (Raise e, w2)
              | (Ok _, w2) =>
                  if decide (saved < MAX_PAGES)
                  then (Raise (SystemExit (pages_message saved)), w2)
                  else (Ok (), emit (EvPrint (summary_line saved)) w2)
              end
          end
    end.
Proof.
  unfold Crawler.main, mbind, M_bind.
  destruct (load_urls URLS_FILE w) as [[urls|e] w0]; [|done].
  case_decide; [done|].
  destruct (main_loop _ _ urls 0 [] w0) as [[[saved idx]|e] w1]; [|done].
  rewrite write_index_spec. by case_decide.
Qed.

(** What one run of [main] does once the URL list is loaded and is not
    empty. *)
Lemma main_run w urls :
  load_urls URLS_FILE w = (Ok urls, w) → urls ≠ [] →
  ∃ pages evs wl w',
    main_loop create_http_session (mkPath OUTPUT_DIR) urls 0 [] w =
      (Ok (length pages, number_from 0 pages), wl) ∧
    log wl = log w ++ evs ∧
    files (fs wl) = store_pages 0 pages (files (fs w)) ∧
    omap page_event evs = page_trace 0 pages ∧
    pages.*1 `sublist_of` urls ∧
    length pages ≤ MAX_PAGES ∧
    (∀ u, EvPrint ("[SKIP] " +:+ u) ∈ evs → u ∉ pages.*1) ∧
    main w = (verdict MAX_PAGES (length pages), w') ∧
    files (fs w') =
      <[mkPath INDEX_PATH := index_text (number_from 0 pages)]>
        (files (fs wl)) ∧
    log w' =
      log wl ++ EvWrite (mkPath INDEX_PATH) (index_text (number_from 0 pages))
             :: (if decide (length pages < MAX_PAGES) then []
                 else [EvPrint (summary_line (length pages))]).
Proof.
  intros Hload Hne.
  assert (NoDup urls) as Hnd.
  { rewrite load_urls_unfold in Hload.
    repeat (case_match; simplify_eq); apply normalize_urls_NoDup. }
  destruct (main_loop_spec create_http_session urls 0 [] w)
    as (pages & evs & wl & Hloop & Hlog & Hfiles & Hobs & Hsub & Hle & Hskip).
  simpl in Hloop.
  rewrite main_unfold, Hload, decide_False, Hloop, write_index_spec by done.
  exists pages, evs, wl. unfold verdict.
  destruct (decide (length pages < MAX_PAGES)); eexists;
    (split_and!; [done..| | |reflexivity|reflexivity|]); try done.
  all: try (apply Hle; lia).
  all: try (intros u Hu; by apply Hskip).
  all: simpl; by rewrite <- ?app_assoc.
Qed.

Lemma page_event_index_write content :
  page_event (EvWrite (mkPath INDEX_PATH) content) = None.
Proof. reflexivity. Qed.

Lemma index_path_not_page n : mkPath INDEX_PATH ≠ page_path n.
Proof. discriminate. Qed.

Lemma pages_message_inj a b : pages_message a = pages_message b → a = b.
Proof.
  unfold pages_message. intros H.
  apply (inj (String.app _)) in H. rewrite <- !sapp_assoc in H.
  apply sapp_inv_tail, sapp_inv_tail in H. by apply (inj pretty) in H.
Qed.

(** C1: every run of [main] either ends before the loop, because loading
    the URL list raised or gave the empty list, and then leaves the world
    as it was, with nothing saved, written or flushed; or it reaches the
    loop, and then the count of saved pages, the number of records of the
    flushed index and the number of page files written are equal; the
    record numbers are 1, 2, ..., saved; the log shows, for each record in
    turn, the accepted fetch of its URL followed by the write of the fetched
    body to the file of its number, and that file still holds that body when
    [main] ends; and no URL reported as skipped is in the index. *)
Theorem saved_pages_match_index w :
  (∃ e, main w = (Raise e, w) ∧
        (load_urls URLS_FILE w = (Raise e, w) ∨
         load_urls URLS_FILE w = (Ok [], w) ∧ e = SystemExit empty_message)) ∨
  ∃ urls pages evs w',
    let saved := length pages in
    let index_lines := number_from 0 pages in
    load_urls URLS_FILE w = (Ok urls, w) ∧ urls ≠ [] ∧
    main w = (verdict MAX_PAGES saved, w') ∧
    log w' = log w ++ evs ∧
    files (fs w') !! mkPath INDEX_PATH = Some (index_text index_lines) ∧
    length index_lines = saved ∧
    page_files_written evs = saved ∧
    index_lines.*1 = seq 1 saved ∧
    omap page_event evs = page_trace 0 pages ∧
    (∀ i u b, pages !! i = Some (u, b) →
       index_lines !! i = Some (S i, u) ∧
       files (fs w') !! page_path (S i) = Some b) ∧
    (∀ u, EvPrint ("[SKIP] " +:+ u) ∈ evs → u ∉ index_lines.*2).
Proof.
  destruct (load_urls URLS_FILE w) as [[urls|e] w0] eqn:Hload;
    pose proof (load_urls_world _ _ _ _ Hload) as ->.
  2:{ left. exists e. split; [|by left]. by rewrite main_unfold, Hload. }
  destruct (decide (urls = [])) as [->|Hne].
  { left. exists (SystemExit empty_message). split; [|by right].
    by rewrite main_unfold, Hload. }
  right.
  destruct (main_run w urls Hload Hne)
    as (pages & evs & wl & w' & Hloop & Hlog & Hfiles & Hobs & Hsub & Hle
        & Hskip & Hmain & Hfiles' & Hlog').
  set (tail := if decide (length pages < MAX_PAGES) then []
               else [EvPrint (summary_line (length pages))]) in Hlog'.
  assert (omap page_event tail = []) as Htail.
  { unfold tail. by case_decide. }
  exists urls, pages,
    (evs ++ EvWrite (mkPath INDEX_PATH) (index_text (number_from 0 pages))
         :: tail), w'.
  assert (omap page_event
            (evs ++ EvWrite (mkPath INDEX_PATH)
                      (index_text (number_from 0 pages)) :: tail)
          = page_trace 0 pages) as Hobs'.
  { rewrite omap_app, Hobs. cbn [omap list_omap].
    rewrite page_event_index_write. fold (omap page_event tail).
    by rewrite Htail, app_nil_r. }
  cbn zeta. split_and!.
  - done.
  - done.
  - done.
  - by rewrite Hlog', Hlog, <- app_assoc.
  - rewrite Hfiles'. apply lookup_insert_eq.
  - apply number_from_length.
  - unfold page_files_written. by rewrite Hobs', page_trace_count.
  - apply number_from_fst.
  - done.
  - intros i u b Hi. split.
    + by rewrite (number_from_lookup 0 pages i u b Hi).
    + rewrite Hfiles', lookup_insert_ne by apply index_path_not_page.
      rewrite Hfiles. by apply (store_pages_lookup 0 pages _ i u b).
  - intros u Hu. rewrite number_from_snd.
    apply elem_of_app in Hu as [Hu|Hu]; [by apply Hskip|].
    apply elem_of_cons in Hu as [Hu|Hu]; [discriminate Hu|].
    unfold tail in Hu. case_decide; [by apply elem_of_nil in Hu|].
    apply list_elem_of_singleton in Hu. discriminate Hu.
Qed.


(** C9: the loop never saves more than [MAX_PAGES] pages: the count and
    the length of the index stay within the target, every page file
    written carries a number between 1 and the target, and once the count
    has reached the target the URLs that follow are not touched, so that
    the run is the same whatever follows. *)
Theorem main_loop_stops_at_target session urls w :
  ∃ saved index_lines w' evs,
    main_loop session (mkPath OUTPUT_DIR) urls 0 [] w =
      (Ok (saved, index_lines), w') ∧
    log w' = log w ++ evs ∧
    saved ≤ MAX_PAGES ∧
    length index_lines = saved ∧
    (∀ p body, Written p body ∈ omap page_event evs →
       ∃ n, p = page_path n ∧ 1 ≤ n ≤ MAX_PAGES) ∧
    (saved = MAX_PAGES →
     ∀ more, main_loop session (mkPath OUTPUT_DIR) (urls ++ more) 0 [] w =
               (Ok (saved, index_lines), w')).
Proof.
  destruct (main_loop_spec session urls 0 [] w)
    as (pages & evs & w' & Hloop & Hlog & Hfiles & Hobs & Hsub & Hle & Hskip).
  simpl in Hloop. specialize (Hle (Nat.le_0_l _)). simpl in Hle.
  exists (length pages), (number_from 0 pages), w', evs.
  split_and!; [done|done|done|apply number_from_length| |].
  - intros p body Hin. rewrite Hobs in Hin.
    destruct (page_trace_written _ _ _ _ Hin) as (n & -> & ?).
    exists n. split; [done|]. simpl in *. lia.
  - intros Hfull more. rewrite main_loop_app, Hloop.
    apply main_loop_full. lia.
Qed.

End Verification.

(** * The properties on a scripted network

    The script makes the first attempt for the only URL raise and the second
    deliver an HTML page; the target is one page and the budget three
    attempts. *)


Lemma fetch_html_retries_then_gives_up_witness :
  let w := demo_world [] in
  let url := "https://a.test/page" in
  every_attempt_raises scripted_get create_http_session url 3 (net w) = true ∧
  ∃ w' evs,
    fetch_html scripted_get 3 create_http_session url w = (Ok None, w') ∧
    fs w' = fs w ∧
    log w' = log w ++ evs ∧
    evs = flat_map (failed_attempt url) (seq 1 3) ∧
    length (filter (λ e, is_get e = true) evs) = 3.
Proof.
  intros w url. split; [reflexivity|].
  apply (fetch_html_retries_then_gives_up scripted_get 3). reflexivity.
Defined.

Lemma fetch_html_response_decides_at_once_witness :
  let resp := {| status_code := 200;
                 headers := [("content-type", "Text/HTML; charset=utf-8")];
                 text := "<html>" |} in
  let w := demo_world [Responded resp] in
  let url := "https://a.test/page" in
  0 < 3 ∧
  scripted_get (net w) create_http_session url TIMEOUT_SEC true
    = ([], Responded resp) ∧
  ∃ r,
    fetch_html scripted_get 3 create_http_session url w =
      (Ok r, {| net := []; fs := fs w;
                log := log w ++ [EvGet url (Responded resp)] |}) ∧
    (status_code resp ≠ 200%Z → r = None) ∧
    (status_code resp = 200%Z →
       (r = Some (text resp) ↔ declares_html resp) ∧
       (r = None ↔ ¬ declares_html resp)).
Proof.
  intros resp w url. split; [lia|]. split; [reflexivity|].
  apply (fetch_html_response_decides_at_once scripted_get 3); [lia|reflexivity].
Defined.

(** The scenarios of the specification, run on the model. *)

Example scenario_target_one :
  let '(r, w) := main scripted_get demo_json 1 3
                   (demo_world [html_page "<html>"]) in
  r = Ok () ∧
  files (fs w) !! mkPath INDEX_PATH
    = Some ("1" +:+ TAB +:+ "https://a.test/page" +:+ NL) ∧
  files (fs w) !! page_path 1 = Some "<html>" ∧
  files (fs w) !! page_path 2 = None.
Proof. vm_compute. done. Qed.

Example scenario_not_found :
  let not_found := Responded {| status_code := 404; headers := []; text := "" |} in
  let '(r, w) := fetch_html scripted_get 3 create_http_session
                   "https://a.test/page" (demo_world [not_found]) in
  r = Ok None ∧ log w = [EvGet "https://a.test/page" not_found].
Proof. vm_compute. done. Qed.

Example scenario_insufficient :
  let '(r, w) := main scripted_get demo_json 2 3
                   (demo_world [Raised; html_page "<html>"]) in
  r = Raise (SystemExit (pages_message 1)) ∧ exit_status r = 1%Z ∧
  files (fs w) !! mkPath INDEX_PATH
    = Some ("1" +:+ TAB +:+ "https://a.test/page" +:+ NL).
Proof. vm_compute. done. Qed.

(** * Further properties of the pure part *)


Lemma lower_char_idem c : lower_char (lower_char c) = lower_char c.
Proof. by destruct c as [[] [] [] [] [] [] [] []]. Qed.

Lemma lower_idem s : lower (lower s) = lower s.
Proof. induction s as [|c s IH]; [done|]. simpl. by rewrite lower_char_idem, IH. Qed.

Lemma before_query_fragment_cut s c t :
  c = "?"%char ∨ c = "#"%char →
  before_query_fragment (before_query_fragment s +:+ String c t)
  = before_query_fragment s.
Proof.
  intros Hc. induction s as [|a s IH]; simpl.
  - by rewrite decide_True.
  - case_decide as Ha.
    + rewrite sapp_nil_l. simpl. by rewrite decide_True.
    + rewrite sapp_cons. simpl. by rewrite decide_False, IH.
Qed.

(** X1: the answer of the resource filter depends neither on the letter
    case of the URL nor on what follows the first [?] or [#]: lower-casing
    the URL, cutting the query and fragment off, or putting any other query
    or fragment in their place leaves the answer unchanged. *)
Theorem is_bad_resource_url_ignores_case_and_query url q :
  is_bad_resource_url (lower url) = is_bad_resource_url url ∧
  is_bad_resource_url (before_query_fragment url) = is_bad_resource_url url ∧
  is_bad_resource_url (before_query_fragment url +:+ String "?" q)
    = is_bad_resource_url url ∧
  is_bad_resource_url (before_query_fragment url +:+ String "#" q)
    = is_bad_resource_url url.
Proof.
  rewrite !is_bad_resource_url_unfold.
  rewrite !before_query_fragment_cut by auto.
  rewrite lower_before_query_fragment, lower_idem.
  split_and!; try reflexivity.
  f_equal. f_equal. clear q. induction url as [|c s IH]; simpl; [done|].
  case_decide; [done|]. simpl. rewrite decide_False by done. by rewrite IH.
Qed.



Lemma first_occurrences_NoDup_id l : NoDup l → first_occurrences l = l.
Proof.
  induction 1 as [|x l Hx Hl IH]; [done|]. simpl. rewrite IH. f_equal.
  clear IH Hl. induction l as [|y l IH]; [done|].
  apply not_elem_of_cons in Hx as [Hxy Hx].
  rewrite filter_cons_True by done. by rewrite IH.
Qed.

Lemma candidates_app l1 l2 :
  candidates (l1 ++ l2) = candidates l1 ++ candidates l2.
Proof. unfold candidates. by rewrite omap_app, !filter_app. Qed.

Lemma candidates_kept k :
  (∀ u, u ∈ k → strip u = u ∧ u ≠ "" ∧ is_bad_resource_url u = false) →
  candidates (JStr <$> k) = k.
Proof.
  induction k as [|u k IH]; intros Hk; [done|].
  rewrite fmap_cons, candidates_cons.
  destruct (Hk u) as (Hs & Hne & Hbad); [apply elem_of_cons; by left|].
  rewrite Hs, decide_False by exact Hne. rewrite Hbad. f_equal.
  apply IH. intros v Hv. apply Hk, elem_of_cons. by right.
Qed.

(** X3: normalising is idempotent: the normalised list, given again as a
    list of string entries, comes back unchanged. *)
Theorem normalize_urls_idempotent urls :
  normalize_urls (JStr <$> normalize_urls urls) = normalize_urls urls.
Proof.
  rewrite (normalize_urls_first_occurrences (JStr <$> _)), candidates_kept.
  - apply first_occurrences_NoDup_id, normalize_urls_NoDup.
  - intros u (s & _ & -> & Hne & Hbad)%normalize_urls_elem.
    split; [apply strip_idem|]. split; assumption.
Qed.

(** X4: normalising a concatenation: the result is the normalisation of the
    first part followed by what the second part adds to it, in the order of
    the second part.  The result is never longer than the input. *)
Theorem normalize_urls_app l1 l2 :
  normalize_urls (l1 ++ l2) =
    normalize_urls l1 ++
    filter (λ u, u ∉ normalize_urls l1) (normalize_urls l2) ∧
  length (normalize_urls (l1 ++ l2)) ≤ length l1 + length l2.
Proof.
  split.
  - rewrite !normalize_urls_first_occurrences, candidates_app,
      first_occurrences_app. f_equal. apply list_filter_iff.
    intros u. by rewrite first_occurrences_elem.
  - rewrite normalize_urls_first_occurrences, <- length_app.
    etrans; [apply sublist_length, first_occurrences_sublist|].
    unfold candidates.
    etrans; [apply length_filter|]. etrans; [apply length_filter|].
    generalize (l1 ++ l2). intros l. induction l as [|j l IH]; [done|].
    destruct j; cbn [omap list_omap length]; fold (@omap list _ json string) in *;
      lia.
Qed.

Lemma candidates_dropped j : dropped j = true → candidates [j] = [].
Proof.
  intros Hj. rewrite candidates_cons.
  destruct j as [| | | |s| |]; try reflexivity.
  unfold dropped in Hj. case_decide as He; [reflexivity|].
  rewrite bool_decide_eq_false_2 in Hj by exact He. simpl in Hj.
  by rewrite Hj.
Qed.

(** X5: an entry that is not a string, that is empty once trimmed, or that
    the resource filter rejects, has no effect wherever it stands in the
    list: the result is the same as without it. *)
Theorem normalize_urls_skips_dropped l1 j l2 :
  dropped j = true →
  normalize_urls (l1 ++ j :: l2) = normalize_urls (l1 ++ l2).
Proof.
  intros Hj. rewrite !normalize_urls_first_occurrences.
  rewrite (candidates_app l1 (j :: l2)), (candidates_app [j] l2 : candidates (j :: l2) = _).
  by rewrite (candidates_dropped j Hj), candidates_app.
Qed.

Lemma normalize_urls_skips_dropped_witness :
  dropped (JStr "  https://a.test/image.PNG?x=1 ") = true ∧
  normalize_urls ([JStr "https://a.test/a"]
                    ++ JStr "  https://a.test/image.PNG?x=1 "
                    :: [JStr "https://a.test/b"])
  = normalize_urls ([JStr "https://a.test/a"] ++ [JStr "https://a.test/b"]).
Proof.
  split; [vm_compute; reflexivity|].
  apply (normalize_urls_skips_dropped [JStr "https://a.test/a"]
           (JStr "  https://a.test/image.PNG?x=1 ") [JStr "https://a.test/b"]).
  vm_compute. reflexivity.
Defined.

(** ** The index text determines the records *)

Lemma index_line_no_newline r :
  no_char "010" r.2 = true → no_char "010" (index_line r) = true.
Proof.
  intros Hr. unfold index_line.
  rewrite !no_char_app, Hr, fmt_d_no_char by apply digit_not_newline. done.
Qed.

Lemma index_line_not_empty r : index_line r ≠ "".
Proof.
  unfold index_line. change (TAB +:+ r.2) with (String "009" r.2).
  by destruct (fmt_d r.1).
Qed.

Lemma unlines_inj l1 l2 :
  Forall (λ x, no_char "010" x = true) l1 →
  Forall (λ x, no_char "010" x = true) l2 →
  unlines l1 = unlines l2 → l1 = l2.
Proof.
  intros H1. revert l2. induction H1 as [|x l1 Hx H1 IH];
    intros l2 H2 Heq; destruct H2 as [|y l2 Hy H2]; simpl in Heq.
  - done.
  - by destruct y.
  - by destruct x.
  - change (NL +:+ unlines l1) with (String "010" (unlines l1)) in Heq.
    change (NL +:+ unlines l2) with (String "010" (unlines l2)) in Heq.
    apply sapp_sep_inj in Heq as [-> Heq]; [|done..].
    f_equal. by apply IH.
Qed.

Lemma index_text_unlines index_lines :
  index_text index_lines =
    match index_lines with
    | [] => NL
    | _ => unlines (index_line <$> index_lines)
    end.
Proof.
  destruct index_lines as [|r l]; [done|].
  unfold index_text. by apply join_unlines.
Qed.

Lemma index_text_nonempty_not_newline r l : index_text (r :: l) ≠ NL.
Proof.
  rewrite index_text_unlines. simpl. intros Heq.
  change (NL +:+ unlines (index_line <$> l))
    with (String "010" (unlines (index_line <$> l))) in Heq.
  pose proof (index_line_not_empty r) as Hne.
  destruct (index_line r) as [|c s]; [done|].
  rewrite sapp_cons in Heq. injection Heq as -> Heq. by destruct s.
Qed.

(** X6: the index text determines the records: two lists of records whose
    URLs hold no newline and that serialise to the same text are equal. *)
Theorem index_text_inj l1 l2 :
  Forall (λ r : nat * string, no_char "010" r.2 = true) l1 →
  Forall (λ r : nat * string, no_char "010" r.2 = true) l2 →
  index_text l1 = index_text l2 → l1 = l2.
Proof.
  intros H1 H2 Heq.
  destruct l1 as [|r1 l1], l2 as [|r2 l2]; [done| | |].
  - symmetry in Heq. by apply index_text_nonempty_not_newline in Heq.
  - by apply index_text_nonempty_not_newline in Heq.
  - rewrite !index_text_unlines in Heq.
    apply unlines_inj in Heq.
    + revert Heq. generalize (r1 :: l1) (r2 :: l2). clear.
      intros k1. induction k1 as [|a k1 IH]; intros [|b k2] Heq;
        simplify_eq/=; [done|].
      f_equal; [by apply index_line_inj|by apply IH].
    + apply Forall_fmap. eapply Forall_impl; [exact H1|].
      intros r Hr. by apply index_line_no_newline.
    + apply Forall_fmap. eapply Forall_impl; [exact H2|].
      intros r Hr. by apply index_line_no_newline.
Qed.

Lemma index_text_inj_witness :
  let l := [(1, "https://a.test/page"); (2, "https://b.test/")] in
  Forall (λ r : nat * string, no_char "010" r.2 = true) l ∧
  index_text l = index_text l ∧ l = l.
Proof.
  intros l.
  assert (Forall (λ r : nat * string, no_char "010" r.2 = true) l) as Hl.
  { repeat constructor. }
  split; [exact Hl|]. split; [reflexivity|].
  exact (index_text_inj l l Hl Hl eq_refl).
Defined.

(** * Further properties of the effectful part *)

Section MoreVerification.

Context {Net : Type}.
Context (http_get : Net → Session → string → Z → bool → Net * outcome).
Context (json_loads : string → option json).
Context (MAX_PAGES RETRIES : nat).

Implicit Types (w : World Net) (p q : Path) (url body : string).
Implicit Types (pages : list (string * string)) (k saved : nat).

Local Abbreviation fetch_loop := (fetch_loop http_get).
Local Abbreviation fetch_html := (fetch_html http_get RETRIES).
Local Abbreviation main_loop := (main_loop http_get MAX_PAGES RETRIES).
Local Abbreviation load_urls := (load_urls (Net:=Net) json_loads).
Local Abbreviation main := (main http_get json_loads MAX_PAGES RETRIES).

(** ** Fetcher *)

Lemma fetch_loop_shape session url attempts : ∀ w,
  ∃ r w' k,
    fetch_loop session url attempts w = (Ok r, w') ∧
    fs w' = fs w ∧
    ((k = length attempts ∧ r = None ∧
      log w' = log w ++ flat_map (failed_attempt url) attempts) ∨
     (k < length attempts ∧
      ∃ resp, r = accepted (Responded resp) ∧
              log w' = log w ++ flat_map (failed_attempt url) (take k attempts)
                             ++ [EvGet url (Responded resp)])).
Proof.
  induction attempts as [|attempt rest IH]; intros w.
  { exists None, w, 0. split_and!; [done..|]. left.
    simpl. by rewrite app_nil_r. }
  rewrite fetch_loop_cons.
  destruct (http_get (net w) session url TIMEOUT_SEC true) as [n [|resp]];
    cbn [fst snd].
  - destruct (IH (emit (EvSleep (backoff attempt))
                    {| net := n; fs := fs w; log := log w ++ [EvGet url Raised] |}))
      as (r & w' & k & Hrun & Hfs & Hshape).
    exists r, w', (S k). split_and!; [done..|].
    destruct Hshape as [(-> & -> & Hlog)|(Hk & resp & -> & Hlog)].
    + left. split_and!; [done..|]. rewrite Hlog. simpl.
      by rewrite <- !app_assoc.
    + right. split; [simpl; lia|]. exists resp. split; [done|].
      rewrite Hlog. simpl. by rewrite <- !app_assoc.
  - eexists (accepted (Responded resp)), _, 0. split_and!; [done..|].
    right. split; [simpl; lia|]. by exists resp.
Qed.

(** X7: every call of [fetch_html] returns normally and leaves the files
    alone.  Its log is [k] failed attempts, numbered from 1, each followed
    by its backoff; then either [k] is [RETRIES] and the result is [None],
    or a response arrived at attempt [k + 1], within the budget, and that
    response alone decides the result.  In particular no more than
    [RETRIES] requests are made. *)
Theorem fetch_html_attempts_then_response session url w :
  ∃ r w' k evs,
    fetch_html session url w = (Ok r, w') ∧
    fs w' = fs w ∧
    log w' = log w ++ evs ∧
    length (omap requested evs) ≤ RETRIES ∧
    ((k = RETRIES ∧ r = None ∧
      evs = flat_map (failed_attempt url) (seq 1 k)) ∨
     (k < RETRIES ∧
      ∃ resp, r = accepted (Responded resp) ∧
              evs = flat_map (failed_attempt url) (seq 1 k)
                    ++ [EvGet url (Responded resp)])).
Proof.
  assert (∀ l, length (omap requested (flat_map (failed_attempt url) l))
               = length l) as Hreq.
  { intros l. induction l as [|a l IH]; [done|].
    change (flat_map (failed_attempt url) (a :: l))
      with (failed_attempt url a ++ flat_map (failed_attempt url) l).
    by rewrite omap_app, length_app, IH. }
  unfold Crawler.fetch_html.
  destruct (fetch_loop_shape session url (seq 1 RETRIES) w)
    as (r & w' & k & Hrun & Hfs & Hshape).
  rewrite length_seq in Hshape.
  destruct Hshape as [(-> & -> & Hlog)|(Hk & resp & -> & Hlog)].
  - exists None, w', RETRIES, (flat_map (failed_attempt url) (seq 1 RETRIES)).
    split_and!; [done..| |by left].
    by rewrite Hreq, length_seq.
  - rewrite take_seq, Nat.min_l in Hlog by lia.
    exists (accepted (Responded resp)), w', k,
      (flat_map (failed_attempt url) (seq 1 k) ++ [EvGet url (Responded resp)]).
    split_and!; [done..| |].
    + rewrite omap_app, length_app, Hreq, length_seq. simpl. lia.
    + right. split; [done|]. by exists resp.
Qed.

(** ** Persistence writer *)

Lemma page_file_inj p (n m : nat) :
  path_join p (fmt_d n +:+ ".txt") = path_join p (fmt_d m +:+ ".txt") → n = m.
Proof.
  unfold path_join. intros H%app_inv_head. injection H as H.
  apply sapp_inv_tail in H. by apply (inj pretty) in H.
Qed.

(** X9: pages saved under different numbers do not disturb each other:
    after both saves each file holds its own body, and the file system is
    the same whichever was saved first. *)
Theorem save_page_distinct_numbers p (n m : nat) b1 b2 w :
  n ≠ m →
  let w2 := (save_page p m b2 (save_page p n b1 w).2).2 in
  files (fs w2) !! path_join p (fmt_d n +:+ ".txt") = Some b1 ∧
  files (fs w2) !! path_join p (fmt_d m +:+ ".txt") = Some b2 ∧
  fs w2 = fs (save_page p n b1 (save_page p m b2 w).2).2.
Proof.
  intros Hnm.
  assert (path_join p (fmt_d n +:+ ".txt") ≠ path_join p (fmt_d m +:+ ".txt"))
    as Hne by (intros ?%page_file_inj; done).
  cbn zeta. rewrite !save_page_spec. simpl. split_and!.
  - rewrite lookup_insert_ne by done. apply lookup_insert_eq.
  - apply lookup_insert_eq.
  - f_equal. by apply insert_insert_ne.
Qed.

(** ** Orchestrator *)

Lemma failed_attempts_requests url attempts :
  omap requested (flat_map (failed_attempt url) attempts)
  = replicate (length attempts) url.
Proof.
  induction attempts as [|a l IH]; [done|].
  change (flat_map (failed_attempt url) (a :: l))
    with (failed_attempt url a ++ flat_map (failed_attempt url) l).
  by rewrite omap_app, IH.
Qed.

Lemma failed_attempts_no_progress url attempts :
  progress_lines (flat_map (failed_attempt url) attempts) = 0.
Proof.
  unfold progress_lines. induction attempts as [|a l IH]; [done|].
  change (flat_map (failed_attempt url) (a :: l))
    with (failed_attempt url a ++ flat_map (failed_attempt url) l).
  by rewrite filter_app, length_app, IH.
Qed.

Lemma progress_lines_app evs1 evs2 :
  progress_lines (evs1 ++ evs2) = progress_lines evs1 + progress_lines evs2.
Proof. unfold progress_lines. by rewrite filter_app, length_app. Qed.

(** What a call of [fetch_html] adds to the log, as far as requests and
    progress lines go. *)
Lemma fetch_html_effects session url w :
  ∃ r w' evs,
    fetch_html session url w = (Ok r, w') ∧
    fs w' = fs w ∧
    log w' = log w ++ evs ∧
    (∀ u, u ∈ omap requested evs → u = url) ∧
    length (omap requested evs) ≤ RETRIES ∧
    progress_lines evs = 0.
Proof.
  unfold Crawler.fetch_html.
  destruct (fetch_loop_shape session url (seq 1 RETRIES) w)
    as (r & w' & k & Hrun & Hfs & Hshape).
  rewrite length_seq in Hshape.
  destruct Hshape as [(-> & -> & Hlog)|(Hk & resp & -> & Hlog)].
  - exists None, w', (flat_map (failed_attempt url) (seq 1 RETRIES)).
    rewrite failed_attempts_requests, failed_attempts_no_progress,
      length_replicate, length_seq.
    split_and!; [done..| |done|done].
    by intros u [-> _]%elem_of_replicate.
  - exists (accepted (Responded resp)), w',
      (flat_map (failed_attempt url) (take k (seq 1 RETRIES))
         ++ [EvGet url (Responded resp)]).
    rewrite omap_app, progress_lines_app, failed_attempts_requests,
      failed_attempts_no_progress, length_app, length_replicate, length_take,
      length_seq.
    split_and!; [done..| | |done].
    + intros u [[-> _]%elem_of_replicate|Hu%list_elem_of_singleton]%elem_of_app;
        done.
    + simpl. lia.
Qed.

Lemma store_pages_frame k pages (m : gmap (list string) string) q :
  (∀ n, k < n ≤ k + length pages → q ≠ page_path n) →
  store_pages k pages m !! q = m !! q.
Proof.
  revert k m. induction pages as [|[u b] pages IH]; intros k m Hq; [done|].
  simpl in *. rewrite IH by (intros n ?; apply Hq; lia).
  apply lookup_insert_ne. intros Heq. by apply (Hq (S k)); [lia|].
Qed.

(** More that the loop keeps, for any starting count and index. *)
Lemma main_loop_more session urls : ∀ saved index_lines w,
  ∃ saved' index_lines' w' evs,
    main_loop session (mkPath OUTPUT_DIR) urls saved index_lines w =
      (Ok (saved', index_lines'), w') ∧
    log w' = log w ++ evs ∧
    saved ≤ saved' ∧
    (∀ u, u ∈ omap requested evs → u ∈ urls) ∧
    length (omap requested evs) ≤ RETRIES * length urls ∧
    progress_lines evs ≤ length urls ∧
    (saved' < MAX_PAGES → progress_lines evs = length urls) ∧
    dirs (fs w') =
      (if decide (saved' = saved) then dirs (fs w)
       else {[mkPath OUTPUT_DIR]} ∪ dirs (fs w)).
Proof.
  induction urls as [|url rest IH]; intros saved idx w.
  { exists saved, idx, w, []. simpl. rewrite app_nil_r, decide_True by done.
    split_and!; first [done | lia]. }
  rewrite main_loop_cons. case_decide as Hfull.
  { exists saved, idx, w, []. simpl. rewrite app_nil_r, decide_True by done.
    split_and!;
      first [done | lia | by intros u []%elem_of_nil
            | unfold progress_lines; simpl; lia]. }
  destruct (fetch_html_effects session url w)
    as (r & w1 & evs1 & Hrun & Hfs1 & Hlog1 & Hreq1 & Hcount1 & Hprog1).
  rewrite Hrun. destruct r as [html|].
  - rewrite save_page_spec.
    match goal with |- context [main_loop _ _ rest _ _ ?w3] =>
      destruct (IH (S saved) (idx ++ [(S saved, url)]) w3)
        as (s' & i' & w' & evs & Hloop & Hlog & Hle & Hreq & Hcount & Hprog
            & Hall & Hdirs)
    end.
    exists s', i', w',
      (evs1 ++ [EvMkdir (mkPath OUTPUT_DIR);
                EvWrite (page_path (S saved)) html;
                EvPrint ("[OK]   " +:+ fmt_03d (S saved) +:+ ": " +:+ url);
                EvSleep REQUEST_DELAY_SEC] ++ evs).
    rewrite !omap_app, !progress_lines_app, !length_app, Hprog1.
    split_and!.
    + done.
    + rewrite Hlog. simpl. rewrite Hlog1, <- !app_assoc. done.
    + lia.
    + intros u [Hu|[Hu|Hu]%elem_of_app]%elem_of_app.
      * apply elem_of_cons. left. by apply Hreq1.
      * by apply elem_of_nil in Hu.
      * apply elem_of_cons. right. by apply Hreq.
    + simpl. lia.
    + change (progress_lines [_; _; _; _]) with 1. simpl. lia.
    + intros Hlt. change (progress_lines [_; _; _; _]) with 1. simpl.
      rewrite Hall by done. done.
    + rewrite Hdirs. simpl. rewrite Hfs1. unfold mkPath.
      rewrite (decide_False (P := s' = saved)) by lia.
      case_decide; set_solver.
  - match goal with |- context [main_loop _ _ rest _ _ ?w3] =>
      destruct (IH saved idx w3)
        as (s' & i' & w' & evs & Hloop & Hlog & Hle & Hreq & Hcount & Hprog
            & Hall & Hdirs)
    end.
    exists s', i', w',
      (evs1 ++ [EvPrint ("[SKIP] " +:+ url); EvSleep REQUEST_DELAY_SEC] ++ evs).
    rewrite !omap_app, !progress_lines_app, !length_app, Hprog1.
    split_and!.
    + done.
    + rewrite Hlog. simpl. rewrite Hlog1, <- !app_assoc. done.
    + lia.
    + intros u [Hu|[Hu|Hu]%elem_of_app]%elem_of_app.
      * apply elem_of_cons. left. by apply Hreq1.
      * by apply elem_of_nil in Hu.
      * apply elem_of_cons. right. by apply Hreq.
    + simpl. lia.
    + change (progress_lines [_; _]) with 1. simpl. lia.
    + intros Hlt. change (progress_lines [_; _]) with 1. simpl.
      rewrite Hall by done. done.
    + rewrite Hdirs. simpl. by rewrite Hfs1.
Qed.

(** X11: the loop writes one progress line for each URL it deals with, in
    all no more than there are URLs.  A run that ends below the target has
    dealt with every URL of the list; a run that leaves URLs untouched has
    reached the target exactly. *)
Theorem main_loop_exhausts_list session urls w :
  ∃ saved index_lines w' evs,
    main_loop session (mkPath OUTPUT_DIR) urls 0 [] w =
      (Ok (saved, index_lines), w') ∧
    log w' = log w ++ evs ∧
    progress_lines evs ≤ length urls ∧
    (saved < MAX_PAGES → progress_lines evs = length urls) ∧
    (progress_lines evs < length urls → saved = MAX_PAGES).
Proof.
  destruct (main_loop_more session urls 0 [] w)
    as (s' & i' & w' & evs & Hloop & Hlog & Hle & Hreq & Hcount & Hprog
        & Hall & Hdirs).
  destruct (main_loop_spec http_get MAX_PAGES RETRIES session urls 0 [] w)
    as (pages & evs0 & w0 & Hloop0 & _ & _ & _ & _ & Hbound & _).
  rewrite Hloop in Hloop0. injection Hloop0 as Hs _ _.
  specialize (Hbound (Nat.le_0_l _)). simpl in Hbound.
  exists s', i', w', evs. split_and!; [done..|].
  intros Hlt. destruct (decide (s' < MAX_PAGES)) as [Hb|Hb]; [|lia].
  specialize (Hall Hb). lia.
Qed.

Lemma load_urls_normalized file_path w urls :
  load_urls file_path w = (Ok urls, w) → ∃ l, urls = normalize_urls l.
Proof.
  rewrite load_urls_unfold. intros H.
  repeat (case_match; simplify_eq); eauto.
Qed.

(** X12: [main] only ever requests URLs of the loaded list, which are
    trimmed, non-empty and pass the resource filter, and the number of its
    requests is at most [RETRIES] times the length of that list; when
    loading raises, or the list is empty, it makes no request and logs
    nothing. *)
Theorem main_requests_only_listed_urls w :
  ∃ r w' evs,
    main w = (r, w') ∧
    log w' = log w ++ evs ∧
    match load_urls URLS_FILE w with
    | (Ok [], _) => evs = []
    | (Ok urls, _) =>
        length (omap requested evs) ≤ RETRIES * length urls ∧
        ∀ u, u ∈ omap requested evs →
             u ∈ urls ∧ u ≠ "" ∧ strip u = u ∧ is_bad_resource_url u = false
    | (Raise _, _) => evs = []
    end.
Proof.
  destruct (load_urls URLS_FILE w) as [[urls|e] w0] eqn:Hload;
    pose proof (load_urls_world _ _ _ _ _ Hload) as ->.
  2:{ exists (Raise e), w, []. rewrite main_unfold, Hload, app_nil_r. done. }
  destruct (decide (urls = [])) as [->|Hne].
  { exists (Raise (SystemExit empty_message)), w, [].
    rewrite main_unfold, Hload, app_nil_r. done. }
  destruct (main_run http_get json_loads MAX_PAGES RETRIES w urls Hload Hne)
    as (pages & evs & wl & w' & Hloop & Hlog & _ & _ & _ & _ & _ & Hmain
        & _ & Hlog').
  destruct (main_loop_more create_http_session urls 0 [] w)
    as (s' & i' & w'' & evs' & Hloop' & Hlog'' & _ & Hreq & Hcount & _).
  rewrite Hloop in Hloop'. injection Hloop' as _ _ <-.
  rewrite Hlog in Hlog''. apply app_inv_head in Hlog''. subst evs'.
  set (tail := if decide (length pages < MAX_PAGES) then []
               else [EvPrint (summary_line (length pages))]) in Hlog'.
  assert (omap requested tail = []) as Htail.
  { unfold tail. by case_decide. }
  assert (omap requested
            (evs ++ EvWrite (mkPath INDEX_PATH)
                      (index_text (number_from 0 pages)) :: tail)
          = omap requested evs) as Hsame.
  { rewrite omap_app. cbn [omap list_omap requested].
    fold (omap requested tail). by rewrite Htail, app_nil_r. }
  exists (verdict MAX_PAGES (length pages)), w',
    (evs ++ EvWrite (mkPath INDEX_PATH) (index_text (number_from 0 pages))
         :: tail).
  split; [done|]. split; [by rewrite Hlog', Hlog, <- app_assoc|].
  destruct urls as [|url0 urls0]; [done|]. rewrite Hsame.
  split; [done|]. intros u Hu%Hreq. split; [done|].
  destruct (load_urls_normalized _ _ _ Hload) as [l Hl]. rewrite Hl in Hu.
  apply normalize_urls_elem in Hu as (s & _ & -> & Hnonempty & Hbad).
  split; [exact Hnonempty|]. split; [apply strip_idem|exact Hbad].
Qed.

(** X13: the only files [main] ever writes are the index and the page
    files numbered 1 to the count of saved pages, and the only directory it
    ever makes is the output directory, and that only once a page is
    saved.  So the input file is left as it is, and so is a page file with
    a number above the count, left over from an earlier run. *)
Theorem main_touches_only_its_files w :
  ∃ r w' saved,
    main w = (r, w') ∧
    saved ≤ MAX_PAGES ∧
    (fs w' = fs w ∧ saved = 0 ∨ r = verdict MAX_PAGES saved) ∧
    (∀ q, q ≠ mkPath INDEX_PATH →
          (∀ n, 1 ≤ n ≤ saved → q ≠ page_path n) →
          files (fs w') !! q = files (fs w) !! q) ∧
    files (fs w') !! mkPath URLS_FILE = files (fs w) !! mkPath URLS_FILE ∧
    (∀ n, saved < n → files (fs w') !! page_path n = files (fs w) !! page_path n) ∧
    dirs (fs w') =
      (if decide (saved = 0) then dirs (fs w)
       else {[mkPath OUTPUT_DIR]} ∪ dirs (fs w)).
Proof.
  destruct (load_urls URLS_FILE w) as [[urls|e] w0] eqn:Hload;
    pose proof (load_urls_world _ _ _ _ _ Hload) as ->.
  2:{ exists (Raise e), w, 0. rewrite main_unfold, Hload.
      split_and!; try done; [lia|by left]. }
  destruct (decide (urls = [])) as [->|Hne].
  { exists (Raise (SystemExit empty_message)), w, 0.
    rewrite main_unfold, Hload. split_and!; try done; [lia|by left]. }
  destruct (main_run http_get json_loads MAX_PAGES RETRIES w urls Hload Hne)
    as (pages & evs & wl & w' & Hloop & Hlog & Hfiles & _ & _ & Hle & _ & Hmain
        & Hfiles' & _).
  destruct (main_loop_more create_http_session urls 0 [] w)
    as (s' & i' & w'' & evs' & Hloop' & _ & _ & _ & _ & _ & _ & Hdirs).
  rewrite Hloop in Hloop'. injection Hloop' as <- _ <-.
  assert (dirs (fs w') = dirs (fs wl)) as Hd.
  { rewrite main_unfold, Hload, decide_False, Hloop, write_index_spec in Hmain
      by done.
    unfold verdict in Hmain.
    destruct (decide (length pages < MAX_PAGES)); by injection Hmain as <-. }
  assert (∀ q, q ≠ mkPath INDEX_PATH →
               (∀ n, 1 ≤ n ≤ length pages → q ≠ page_path n) →
               files (fs w') !! q = files (fs w) !! q) as Hframe.
  { intros q Hq Hpages. rewrite Hfiles', lookup_insert_ne, Hfiles by done.
    apply store_pages_frame. intros n Hn. apply Hpages. lia. }
  exists (verdict MAX_PAGES (length pages)), w', (length pages).
  split_and!; [done|done|by right|done| | |by rewrite Hd, Hdirs].
  - apply Hframe; [done|]. intros n _. discriminate.
  - intros n Hn. apply Hframe.
    + apply not_eq_sym, index_path_not_page.
    + intros m Hm Heq%page_path_inj. lia.
Qed.


(** X15: the URLs of the flushed index are URLs of the loaded list, in the
    order of that list, and none occurs twice. *)
Theorem index_urls_follow_list w urls :
  load_urls URLS_FILE w = (Ok urls, w) → urls ≠ [] →
  ∃ r w' index_lines,
    main w = (r, w') ∧
    files (fs w') !! mkPath INDEX_PATH = Some (index_text index_lines) ∧
    index_lines.*2 `sublist_of` urls ∧
    NoDup (index_lines.*2).
Proof.
  intros Hload Hne.
  destruct (main_run http_get json_loads MAX_PAGES RETRIES w urls Hload Hne)
    as (pages & evs & wl & w' & Hloop & Hlog & Hfiles & _ & Hsub & _ & _ & Hmain
        & Hfiles' & _).
  exists (verdict MAX_PAGES (length pages)), w', (number_from 0 pages).
  rewrite number_from_snd. split_and!; [done| |done|].
  - rewrite Hfiles'. apply lookup_insert_eq.
  - eapply sublist_NoDup; [|exact Hsub].
    destruct (load_urls_normalized _ _ _ Hload) as [l ->].
    apply normalize_urls_NoDup.
Qed.

(** X16: the result of [main] tells the count of saved pages.  When
    [main] ends normally the flushed index has exactly [MAX_PAGES] records,
    numbered 1 to [MAX_PAGES]; when it ends with the message for [n] saved
    pages, [n] is below [MAX_PAGES] and the flushed index has exactly [n]
    records, numbered 1 to [n]. *)
Theorem main_result_tells_count w :
  ((main w).1 = Ok () →
     ∃ index_lines,
       files (fs (main w).2) !! mkPath INDEX_PATH = Some (index_text index_lines) ∧
       index_lines.*1 = seq 1 MAX_PAGES) ∧
  (∀ n, (main w).1 = Raise (SystemExit (pages_message n)) →
     n < MAX_PAGES ∧
     ∃ index_lines,
       files (fs (main w).2) !! mkPath INDEX_PATH = Some (index_text index_lines) ∧
       index_lines.*1 = seq 1 n).
Proof.
  destruct (load_urls URLS_FILE w) as [[urls|e] w0] eqn:Hload;
    pose proof (load_urls_world _ _ _ _ _ Hload) as ->.
  2:{ rewrite main_unfold, Hload. simpl. split; [done|]. intros n Hn.
      rewrite load_urls_unfold in Hload.
      repeat (case_match; simplify_eq). }
  destruct (decide (urls = [])) as [->|Hne].
  { rewrite main_unfold, Hload. simpl. split; [done|]. intros n Hn.
    injection Hn as Hn. cbv in Hn. discriminate Hn. }
  destruct (main_run http_get json_loads MAX_PAGES RETRIES w urls Hload Hne)
    as (pages & evs & wl & w' & Hloop & Hlog & Hfiles & _ & Hsub & Hle & _ & Hmain
        & Hfiles' & _).
  rewrite Hmain. simpl. unfold verdict.
  assert (files (fs w') !! mkPath INDEX_PATH
          = Some (index_text (number_from 0 pages))) as Hidx.
  { rewrite Hfiles'. apply lookup_insert_eq. }
  case_decide as Hlt; split.
  - done.
  - intros n Hn.
    apply (f_equal (λ r : result unit,
                      match r with Raise (SystemExit m) => m | _ => "" end))
      in Hn.
    cbn beta iota in Hn. apply pages_message_inj in Hn. subst n.
    split; [done|]. exists (number_from 0 pages).
    by rewrite number_from_fst.
  - intros _. exists (number_from 0 pages). split; [done|].
    rewrite number_from_fst. f_equal. lia.
  - done.
Qed.

End MoreVerification.

Lemma save_page_distinct_numbers_witness :
  let w := demo_world [] in
  let p := mkPath OUTPUT_DIR in
  let w2 := (save_page p 2 "<b>" (save_page p 1 "<a>" w).2).2 in
  1 ≠ 2 ∧
  files (fs w2) !! path_join p (fmt_d 1 +:+ ".txt") = Some "<a>" ∧
  files (fs w2) !! path_join p (fmt_d 2 +:+ ".txt") = Some "<b>" ∧
  fs w2 = fs (save_page p 1 "<a>" (save_page p 2 "<b>" w).2).2.
Proof.
  intros w p w2. split; [lia|].
  apply (save_page_distinct_numbers p 1 2 "<a>" "<b>" w). lia.
Defined.



Lemma index_urls_follow_list_witness :
  let w := demo_world [Raised; html_page "<html>"] in
  let urls := ["https://a.test/page"] in
  load_urls demo_json URLS_FILE w = (Ok urls, w) ∧ urls ≠ [] ∧
  ∃ r w' index_lines,
    main scripted_get demo_json 1 3 w = (r, w') ∧
    files (fs w') !! mkPath INDEX_PATH = Some (index_text index_lines) ∧
    index_lines.*2 `sublist_of` urls ∧
    NoDup (index_lines.*2).
Proof.
  intros w urls.
  assert (load_urls demo_json URLS_FILE w = (Ok urls, w)) as Hload
    by (vm_compute; reflexivity).
  assert (urls ≠ []) as Hne by discriminate.
  split; [exact Hload|]. split; [exact Hne|].
  exact (index_urls_follow_list scripted_get demo_json 1 3 w urls Hload Hne).
Defined.

(** * The persistence writer over the file system with kinds of nodes *)

Lemma make_dirs_lookup (l : list (list string))
    (t : gmap (list string) Checked.node) (q : list string) :
  Checked.make_dirs l t !! q = if decide (q ∈ l) then Some Checked.Dir else t !! q.
Proof.
  induction l as [|a l IH]; simpl.
  - done.
  - destruct (decide (a = q)) as [->|Hne].
    + rewrite lookup_insert_eq, decide_True; [done|]. apply elem_of_cons. by left.
    + rewrite lookup_insert_ne, IH by done.
      destruct (decide (q ∈ l)) as [Hin|Hin].
      * rewrite decide_True; [done|]. apply elem_of_cons. by right.
      * rewrite decide_False; [done|]. rewrite elem_of_cons. naive_solver.
Qed.

Lemma lineage_length (p q : list string) : q ∈ lineage p → 1 ≤ length q ≤ length p.
Proof.
  unfold lineage. intros (k & -> & [Hk1 Hk2]%elem_of_seq)%list_elem_of_fmap.
  rewrite length_take. lia.
Qed.

Lemma lineage_not_page_file (p : list string) name : path_join p name ∉ lineage p.
Proof.
  intros Hin%lineage_length. unfold path_join in Hin.
  rewrite length_app in Hin. simpl in Hin. lia.
Qed.

Lemma checked_is_dir_ext (t t' : gmap (list string) Checked.node)
    (q : list string) :
  t !! q = t' !! q → Checked.is_dir t q = Checked.is_dir t' q.
Proof. unfold Checked.is_dir. intros H. destruct q; [done|]. by rewrite H. Qed.

Lemma checked_is_dir_false (t : gmap (list string) Checked.node)
    (q : list string) :
  Checked.is_dir t q = false → t !! q ≠ Some Checked.Dir.
Proof.
  unfold Checked.is_dir. destruct q; [intros H; discriminate H|].
  intros H Ht. rewrite Ht in H. discriminate H.
Qed.

Lemma no_file_on_spec (t : gmap (list string) Checked.node)
    (p : list string) :
  Checked.no_file_on t p = true ↔
  ∀ q, q ∈ lineage p → Checked.is_file t q = false.
Proof.
  unfold Checked.no_file_on. rewrite forallb_forall. split.
  - intros H q Hq%list_elem_of_In. by apply negb_true_iff, H.
  - intros H q Hq%list_elem_of_In. by apply negb_true_iff, H.
Qed.

Lemma checked_mkdir_ok (t : gmap (list string) Checked.node)
    (p : list string) :
  Checked.no_file_on t p = true →
  Checked.mkdir p t = (inr (), Checked.make_dirs (lineage p) t).
Proof.
  intros Hno. unfold Checked.mkdir.
  destruct (list_find _ (lineage p)) as [[i q]|] eqn:Hfind; [|done].
  apply list_find_Some in Hfind as (Hq%list_elem_of_lookup_2 & Hfile & _).
  rewrite no_file_on_spec in Hno. by rewrite (Hno q Hq) in Hfile.
Qed.

Lemma checked_save_page_spec (t : gmap (list string) Checked.node)
    (p : list string) (number : nat) (body : string) :
  Checked.no_file_on t p = true →
  Checked.is_dir t (path_join p (fmt_d number +:+ ".txt")) = false →
  Checked.save_page p number body t =
    (inr (path_join p (fmt_d number +:+ ".txt")),
     <[path_join p (fmt_d number +:+ ".txt") := Checked.File body]>
       (Checked.make_dirs (lineage p) t)).
Proof.
  intros Hno Hdir. unfold Checked.save_page.
  rewrite checked_mkdir_ok by done. cbn zeta.
  unfold Checked.write_text. rewrite parent_path_join.
  set (path := path_join p (fmt_d number +:+ ".txt")) in *.
  assert (Checked.no_file_on (Checked.make_dirs (lineage p) t) p = true)
    as ->.
  { apply no_file_on_spec. intros q Hq. unfold Checked.is_file.
    destruct q as [|a q]; [done|].
    by rewrite make_dirs_lookup, decide_True by done. }
  cbn [negb].
  assert (Checked.is_dir (Checked.make_dirs (lineage p) t) p = true) as ->.
  { unfold Checked.is_dir. destruct p as [|a p]; [done|].
    by rewrite make_dirs_lookup, decide_True by (by apply lineage_self). }
  assert (Checked.is_dir (Checked.make_dirs (lineage p) t) path = false) as ->.
  { rewrite <- Hdir. apply checked_is_dir_ext.
    by rewrite make_dirs_lookup, decide_False
      by apply lineage_not_page_file. }
  done.
Qed.

Lemma make_dirs_again (l : list (list string))
    (t : gmap (list string) Checked.node) (q : list string)
    (n : Checked.node) :
  q ∉ l →
  Checked.make_dirs l (<[q := n]> (Checked.make_dirs l t))
  = <[q := n]> (Checked.make_dirs l t).
Proof.
  intros Hq. apply map_eq. intros k. rewrite make_dirs_lookup.
  destruct (decide (k ∈ l)) as [Hk|Hk]; [|done].
  rewrite lookup_insert_ne by (by intros ->).
  by rewrite make_dirs_lookup, decide_True.
Qed.

(** C8, as amended: when no regular file stands at the output directory or
    above it, and the file path is not a directory, saving a page succeeds
    whether or not the directory or the file is already there; it returns
    the path [output_dir / "{number}.txt"], the file then holds the body,
    the output directory and those above it are directories, and no other
    node changes.  Saving the same number again succeeds and overwrites:
    with the same body the file system is left as it is, and with another
    body it is the same as after saving that body alone. *)
Theorem save_page_overwrites (p : list string) (number : nat)
    (body body' : string) (t : gmap (list string) Checked.node) :
  let path := path_join p (fmt_d number +:+ ".txt") in
  Checked.no_file_on t p = true →
  Checked.is_dir t path = false →
  ∃ t1 t3,
    Checked.save_page p number body t = (inr path, t1) ∧
    t1 !! path = Some (Checked.File body) ∧
    (∀ q, q ∈ lineage p → t1 !! q = Some Checked.Dir) ∧
    (∀ q, q ≠ path → q ∉ lineage p → t1 !! q = t !! q) ∧
    Checked.save_page p number body t1 = (inr path, t1) ∧
    Checked.save_page p number body' t1 = (inr path, t3) ∧
    t3 !! path = Some (Checked.File body') ∧
    t3 = (Checked.save_page p number body' t).2.
Proof.
  intros path Hno Hdir.
  pose proof (lineage_not_page_file p (fmt_d number +:+ ".txt")) as Hpath.
  fold path in Hpath.
  set (t1 := <[path := Checked.File body]> (Checked.make_dirs (lineage p) t)).
  assert (Checked.no_file_on t1 p = true) as Hno1.
  { apply no_file_on_spec. intros q Hq. unfold Checked.is_file, t1.
    destruct q as [|a q]; [done|].
    rewrite lookup_insert_ne by (by intros ->).
    by rewrite make_dirs_lookup, decide_True by done. }
  assert (Checked.is_dir t1 path = false) as Hdir1.
  { unfold Checked.is_dir, t1.
    destruct path as [|a q] eqn:Hp; [by destruct p|].
    by rewrite lookup_insert_eq. }
  exists t1, (<[path := Checked.File body']> (Checked.make_dirs (lineage p) t)).
  rewrite !(checked_save_page_spec t1), (checked_save_page_spec t) by done.
  fold path. unfold t1. rewrite !make_dirs_again by done.
  rewrite !insert_insert_eq. split_and!; try done.
  - apply lookup_insert_eq.
  - intros q Hq. rewrite lookup_insert_ne by (by intros ->).
    by rewrite make_dirs_lookup, decide_True.
  - intros q Hq Hl. rewrite lookup_insert_ne by done.
    by rewrite make_dirs_lookup, decide_False.
  - apply lookup_insert_eq.
  - by rewrite (checked_save_page_spec t) by done.
Qed.

(** A file system where the output directory and page 1 are there already. *)
Lemma save_page_overwrites_witness :
  let t : gmap (list string) Checked.node :=
    {[ mkPath OUTPUT_DIR := Checked.Dir;
       page_path 1 := Checked.File "<old>" ]} in
  let p := mkPath OUTPUT_DIR in
  let path := path_join p (fmt_d 1 +:+ ".txt") in
  Checked.no_file_on t p = true ∧
  Checked.is_dir t path = false ∧
  ∃ t1 t3,
    Checked.save_page p 1 "<new>" t = (inr path, t1) ∧
    t1 !! path = Some (Checked.File "<new>") ∧
    (∀ q, q ∈ lineage p → t1 !! q = Some Checked.Dir) ∧
    (∀ q, q ≠ path → q ∉ lineage p → t1 !! q = t !! q) ∧
    Checked.save_page p 1 "<new>" t1 = (inr path, t1) ∧
    Checked.save_page p 1 "<newer>" t1 = (inr path, t3) ∧
    t3 !! path = Some (Checked.File "<newer>") ∧
    t3 = (Checked.save_page p 1 "<newer>" t).2.
Proof.
  intros t p path.
  split; [vm_compute; reflexivity|]. split; [vm_compute; reflexivity|].
  apply (save_page_overwrites p 1 "<new>" "<newer>" t);
    vm_compute; reflexivity.
Defined.

(** The claim as it stands fails where the output directory is a regular
    file: [mkdir] raises and no page file is written. *)
Lemma save_page_fails_on_file_clash :
  (Checked.save_page (mkPath OUTPUT_DIR) 1 "<html>"
     {[ mkPath OUTPUT_DIR := Checked.File "not a directory" ]}).1
  = inl (Checked.FileExistsError (mkPath OUTPUT_DIR)) ∧
  (Checked.save_page (mkPath OUTPUT_DIR) 1 "<html>"
     {[ mkPath OUTPUT_DIR := Checked.File "not a directory" ]}).2
    !! page_path 1 = None ∧
  ¬ (∀ (p : list string) (number : nat) (body : string)
       (t : gmap (list string) Checked.node),
       ∃ t1, Checked.save_page p number body t
             = (inr (path_join p (fmt_d number +:+ ".txt")), t1)).
Proof.
  assert ((Checked.save_page (mkPath OUTPUT_DIR) 1 "<html>"
             {[ mkPath OUTPUT_DIR := Checked.File "not a directory" ]}).1
          = inl (Checked.FileExistsError (mkPath OUTPUT_DIR))) as Hrun
    by (vm_compute; reflexivity).
  split; [exact Hrun|]. split; [vm_compute; reflexivity|].
  intros Hall.
  destruct (Hall (mkPath OUTPUT_DIR) 1 "<html>"
              {[ mkPath OUTPUT_DIR := Checked.File "not a directory" ]})
    as [t1 Ht1].
  rewrite Ht1 in Hrun. discriminate Hrun.
Qed.

(** Nor does it succeed where a directory stands at the file path:
    [write_text] raises after the output directory has been made. *)
Example save_page_fails_on_directory_at_file_path :
  (Checked.save_page (mkPath OUTPUT_DIR) 1 "<html>"
     {[ page_path 1 := Checked.Dir ]}).1
  = inl (Checked.IsADirectoryError (page_path 1)).
Proof. vm_compute. reflexivity. Qed.

(** ** The two file systems agree where nothing stands in the way *)

Section FileSystems.

Context {Net : Type}.

Implicit Types (w : World Net) (t : gmap (list string) Checked.node).

Lemma view_dirs t (q : list string) :
  q ∈ dirs (Checked.view t) ↔ t !! q = Some Checked.Dir.
Proof.
  unfold Checked.view. cbn [dirs]. rewrite elem_of_dom, lookup_omap.
  destruct (t !! q) as [[|c]|]; cbn; split;
    first [ done | by intros [? ?] ].
Qed.

Lemma view_files t (q : list string) (c : string) :
  files (Checked.view t) !! q = Some c ↔ t !! q = Some (Checked.File c).
Proof.
  unfold Checked.view. cbn [files]. rewrite lookup_omap.
  destruct (t !! q) as [[|c']|]; cbn; split; intros H;
    first [ discriminate H | by injection H as -> ].
Qed.

(** On a tree where no regular file stands at the output directory or
    above it and no directory at the file path, the writer of the program
    does what the writer over the tree does. *)
Lemma save_page_view w t (p : list string) (number : nat) (body : string) :
  fs w = Checked.view t →
  Checked.no_file_on t p = true →
  Checked.is_dir t (path_join p (fmt_d number +:+ ".txt")) = false →
  ∃ t1 w1,
    Checked.save_page p number body t
      = (inr (path_join p (fmt_d number +:+ ".txt")), t1) ∧
    save_page p number body w
      = (Ok (path_join p (fmt_d number +:+ ".txt")), w1) ∧
    fs w1 = Checked.view t1.
Proof.
  intros Hfs Hno Hdir.
  pose proof (lineage_not_page_file p (fmt_d number +:+ ".txt")) as Hpath.
  rewrite checked_save_page_spec, save_page_spec by done.
  set (path := path_join p (fmt_d number +:+ ".txt")) in *.
  do 2 eexists. split; [reflexivity|]. split; [reflexivity|].
  cbn [fs]. rewrite Hfs.
  assert (t !! path ≠ Some Checked.Dir) as Hnd.
  { by apply checked_is_dir_false. }
  assert (∀ q c, q ∈ lineage p → t !! q ≠ Some (Checked.File c)) as Hnf.
  { intros q c Hq Ht. rewrite no_file_on_spec in Hno.
    specialize (Hno q Hq). unfold Checked.is_file in Hno.
    apply lineage_length in Hq.
    destruct q; [simpl in Hq; lia|]. rewrite Ht in Hno. discriminate Hno. }
  unfold Checked.view at 3. f_equal.
  - apply set_eq. intros q.
    rewrite elem_of_union, elem_of_list_to_set, view_dirs, elem_of_dom,
      lookup_omap.
    destruct (decide (q = path)) as [->|Hq].
    + rewrite lookup_insert_eq. cbn. split; [|by intros [? ?]].
      intros [?|?]; done.
    + rewrite lookup_insert_ne, make_dirs_lookup by done.
      destruct (decide (q ∈ lineage p)) as [Hin|Hin]; cbn.
      * split; [by eexists|by left].
      * destruct (t !! q) as [[|c]|]; cbn; split;
          first [ by eexists | by right | by intros [? ?]
                | by intros [?|?] ].
  - apply map_eq. intros q. rewrite lookup_omap.
    destruct (decide (q = path)) as [->|Hq].
    + by rewrite !lookup_insert_eq.
    + rewrite !lookup_insert_ne, make_dirs_lookup by done.
      unfold Checked.view. cbn [files]. rewrite lookup_omap.
      destruct (decide (q ∈ lineage p)) as [Hin|Hin]; [|done].
      destruct (t !! q) as [[|c]|] eqn:Ht; [done| |done].
      by destruct (Hnf q c Hin).
Qed.

End FileSystems.
